(** * Albert plugin loader and trigger table: a shallow embedding

    The development follows two translation units of the launcher:

    - [src/qtpluginloader.cpp]: locale resolution of metadata keys, the
      extraction and validation of plugin metadata in the constructor of
      [QtPluginLoader], and its [load], [unload] and destructor;
    - [src/lib/settings/triggerwidget.cpp]: the table model through which
      the settings window edits handler triggers.

    Qt values are embedded by what the code observes of them: [QString] as
    [string], holding the text in UTF-8, [QJsonObject] as a finite map,
    [QRegularExpression] as a small backtracking matcher for the pattern
    constructs the file uses. *)

From Stdlib Require Import ZArith NArith Ascii String List Lia.
From stdpp Require Import base strings gmap list pretty sorting.

Local Open Scope string_scope.

(** ** Strings *)

(** [QString::isEmpty]. *)
Definition isEmpty (s : string) : bool :=
  match s with EmptyString => true | String _ _ => false end.

(** [QStringList::join]. *)
Definition join (sep : string) (l : list string) : string := String.concat sep l.

Fixpoint string_existsb (f : ascii -> bool) (s : string) : bool :=
  match s with
  | EmptyString => false
  | String a s' => f a || string_existsb f s'
  end.

Fixpoint string_forallb (f : ascii -> bool) (s : string) : bool :=
  match s with
  | EmptyString => true
  | String a s' => f a && string_forallb f s'
  end.

(** [QString::startsWith]. *)
Fixpoint startsWith (s p : string) {struct p} : bool :=
  match p with
  | EmptyString => true
  | String a p' =>
      match s with
      | EmptyString => false
      | String b s' => Ascii.eqb a b && startsWith s' p'
      end
  end.

(** The line feed, the only newline of the default PCRE2 convention. *)
Definition LF : ascii := "010"%char.

Definition is_digit (a : ascii) : bool :=
  (48 <=? nat_of_ascii a)%nat && (nat_of_ascii a <=? 57)%nat.

Definition UINT_MAX : N := 4294967295.

(** Value of a run of ASCII digits, most significant first; [None] as soon
    as another character is met. *)
Fixpoint parse_digits (acc : N) (s : string) : option N :=
  match s with
  | EmptyString => Some acc
  | String a s' =>
      if is_digit a
      then parse_digits (10 * acc + (N_of_ascii a - 48))%N s'
      else None
  end.

(** [QString::toUInt()] in base 10 with no [ok] pointer: the value, or 0
    when the conversion fails, which for a run of digits means that the
    value does not fit 32 bits.  The code only applies it to text captured
    by [(\d+)]. *)
Definition toUInt (s : string) : N :=
  match s with
  | EmptyString => 0%N
  | String _ _ =>
      match parse_digits 0 s with
      | Some n => if (n <=? UINT_MAX)%N then n else 0%N
      | None => 0%N
      end
  end.

(** ** Regular expressions

    The fragment of PCRE that the patterns of [qtpluginloader.cpp] are
    written in, matched the way a backtracking engine does: greedy
    quantifiers that give characters back, atomic groups that do not,
    numbered captures, and an unanchored search for the leftmost match. *)
Module Regex.

Inductive regex : Type :=
| Eps                                  (* the empty pattern *)
| Chr (c : ascii)                      (* a literal character *)
| Any                                  (* .   any code point but a newline *)
| Class (rs : list (ascii * ascii))    (* [a-z0-9_], \d: a union of ranges *)
| Seq (r1 r2 : regex)                  (* r1 r2 *)
| Opt (r : regex)                      (* r?  greedy *)
| Plus (r : regex)                     (* r+  greedy *)
| Group (n : nat) (r : regex)          (* (r), the n-th capturing group *)
| Atomic (r : regex)                   (* (?>r) *)
| Bol                                  (* ^ *)
| Eol.                                 (* $ *)

(** A literal word. *)
Fixpoint Str (s : string) : regex :=
  match s with
  | EmptyString => Eps
  | String a EmptyString => Chr a
  | String a s' => Seq (Chr a) (Str s')
  end.

(** Where the matcher stands: the offset in the subject, the text still
    ahead, and the groups captured so far. *)
Record cursor := Cursor { pos : nat; rest : string; caps : gmap nat string }.

Definition advance (c : cursor) (s : string) : cursor :=
  {| pos := S (pos c); rest := s; caps := caps c |}.

Definition in_range (a : ascii) (r : ascii * ascii) : bool :=
  (nat_of_ascii (fst r) <=? nat_of_ascii a)%nat &&
  (nat_of_ascii a <=? nat_of_ascii (snd r))%nat.

Definition in_class (rs : list (ascii * ascii)) (a : ascii) : bool :=
  existsb (in_range a) rs.

Definition orelse {A} (x y : option A) : option A :=
  match x with Some v => Some v | None => y end.

(** A byte of the form 10xxxxxx, which continues a code point. *)
Definition is_continuation (b : ascii) : bool :=
  (128 <=? nat_of_ascii b)%nat && (nat_of_ascii b <? 192)%nat.

(** How many bytes follow the first byte of a code point; none for a byte
    that cannot start one. *)
Definition utf8_following (b : ascii) : option nat :=
  let n := nat_of_ascii b in
  if (n <? 128)%nat then Some 0%nat
  else if (n <? 192)%nat then None
  else if (n <? 224)%nat then Some 1%nat
  else if (n <? 240)%nat then Some 2%nat
  else if (n <? 248)%nat then Some 3%nat
  else None.

(** The text left once [n] continuation bytes are read. *)
Fixpoint skip_continuation (n : nat) (s : string) : option string :=
  match n with
  | O => Some s
  | S n' =>
      match s with
      | String b s' => if is_continuation b then skip_continuation n' s' else None
      | EmptyString => None
      end
  end.

(** [run r c k] matches [r] at [c] and hands the cursor reached to the
    continuation [k], which stands for the rest of the pattern; when [k]
    fails the alternatives of [r] are tried in the order of preference of
    the engine.  The result is the final cursor of the first success.
    Qt compiles every pattern for Unicode text, so the dot reads one code
    point, all its bytes, while offsets count bytes. *)
Fixpoint run (r : regex) (c : cursor) (k : cursor -> option cursor) : option cursor :=
  match r with
  | Eps => k c
  | Chr a =>
      match rest c with
      | String b s => if Ascii.eqb a b then k (advance c s) else None
      | EmptyString => None
      end
  | Any =>
      match rest c with
      | String b s =>
          if Ascii.eqb b LF then None
          else
            match utf8_following b with
            | Some n =>
                match skip_continuation n s with
                | Some s' => k {| pos := S n + pos c; rest := s'; caps := caps c |}
                | None => None
                end
            | None => None
            end
      | EmptyString => None
      end
  | Class rs =>
      match rest c with
      | String b s => if in_class rs b then k (advance c s) else None
      | EmptyString => None
      end
  | Seq r1 r2 => run r1 c (fun c' => run r2 c' k)
  | Opt r1 => orelse (run r1 c k) (k c)
  | Plus r1 =>
      (fix loop (n : nat) (c0 : cursor) : option cursor :=
         run r1 c0 (fun c' =>
           match n with
           | S n' =>
               if (pos c0 <? pos c')%nat
               then orelse (loop n' c') (k c')
               else k c'
           | O => k c'
           end)) (String.length (rest c)) c
  | Group n r1 =>
      run r1 c (fun c' =>
        k {| pos := pos c'; rest := rest c';
             caps := <[n := substring 0 (pos c' - pos c) (rest c)]> (caps c') |})
  | Atomic r1 =>
      match run r1 c Some with
      | Some c' => k c'
      | None => None
      end
  | Bol => if (pos c =? 0)%nat then k c else None
  | Eol =>
      match rest c with
      | EmptyString => k c
      | String b EmptyString => if Ascii.eqb b LF then k c else None
      | String _ (String _ _) => None
      end
  end.

(** The leftmost match at or after offset [p], where [s] is the subject
    from [p] on.  Group 0 is the whole match. *)
Fixpoint search (r : regex) (p : nat) (s : string) : option (gmap nat string) :=
  match run r (Cursor p s ∅) Some with
  | Some c' => Some (<[0%nat := substring 0 (pos c' - p) s]> (caps c'))
  | None =>
      match s with
      | String _ s' => search r (S p) s'
      | EmptyString => None
      end
  end.

End Regex.

Import Regex.

(** [QRegularExpressionMatch]: the captured groups of a match, or nothing. *)
Definition QRegularExpressionMatch : Type := option (gmap nat string).

(** [QRegularExpression::match(subject)]. *)
Definition QRegularExpression_match (r : regex) (subject : string) : QRegularExpressionMatch :=
  search r 0 subject.

Definition hasMatch (m : QRegularExpressionMatch) : bool :=
  match m with Some _ => true | None => false end.

(** [QRegularExpressionMatch::captured(n)]: the null string when there is
    no match or the group did not take part in it. *)
Definition captured (m : QRegularExpressionMatch) (n : nat) : string :=
  match m with
  | Some g => default "" (g !! n)
  | None => ""
  end.

(** [\d] without the Unicode properties option. *)
Definition digit : regex := Class [("0"%char, "9"%char)].

(** ** The order of [QString]

    [QString::operator<] compares the two texts code unit by code unit, in
    UTF-16.  The code units are computed from the UTF-8 text: its code
    points first, then one unit for a code point below 0x10000 and a
    surrogate pair for one above. *)

(** U+FFFD, which stands for a byte that belongs to no code point.  The
    UTF-8 of a [QString] has no such byte; the case makes the reading
    total. *)
Definition REPLACEMENT : N := 65533.

(** The six bits a continuation byte carries. *)
Definition continuation_bits (b : ascii) : N := (N_of_ascii b - 128)%N.

Fixpoint utf8_code_points (s : string) : list N :=
  match s with
  | EmptyString => []
  | String b0 s0 =>
      match utf8_following b0 with
      | Some 0%nat => N_of_ascii b0 :: utf8_code_points s0
      | Some 1%nat =>
          match s0 with
          | String b1 s1 =>
              if is_continuation b1
              then ((N_of_ascii b0 - 192) * 64 + continuation_bits b1)%N
                   :: utf8_code_points s1
              else REPLACEMENT :: utf8_code_points s0
          | EmptyString => REPLACEMENT :: utf8_code_points s0
          end
      | Some 2%nat =>
          match s0 with
          | String b1 (String b2 s2) =>
              if is_continuation b1 && is_continuation b2
              then (((N_of_ascii b0 - 224) * 64 + continuation_bits b1) * 64
                    + continuation_bits b2)%N
                   :: utf8_code_points s2
              else REPLACEMENT :: utf8_code_points s0
          | _ => REPLACEMENT :: utf8_code_points s0
          end
      | Some _ =>
          match s0 with
          | String b1 (String b2 (String b3 s3)) =>
              if is_continuation b1 && is_continuation b2 && is_continuation b3
              then ((((N_of_ascii b0 - 240) * 64 + continuation_bits b1) * 64
                     + continuation_bits b2) * 64 + continuation_bits b3)%N
                   :: utf8_code_points s3
              else REPLACEMENT :: utf8_code_points s0
          | _ => REPLACEMENT :: utf8_code_points s0
          end
      | None => REPLACEMENT :: utf8_code_points s0
      end
  end.

Definition utf16_units (cp : N) : list N :=
  if (cp <? 65536)%N then [cp]
  else [(55296 + (cp - 65536) / 1024)%N; (56320 + (cp - 65536) mod 1024)%N].

(** The code units of a [QString]. *)
Definition QString_units (s : string) : list N :=
  flat_map utf16_units (utf8_code_points s).

Fixpoint units_compare (x y : list N) : comparison :=
  match x, y with
  | [], [] => Eq
  | [], _ :: _ => Lt
  | _ :: _, [] => Gt
  | a :: x', b :: y' =>
      match N.compare a b with
      | Eq => units_compare x' y'
      | Lt => Lt
      | Gt => Gt
      end
  end.

(** [QString::operator<] and [operator<=]. *)
Definition QString_lt (a b : string) : bool :=
  match units_compare (QString_units a) (QString_units b) with
  | Lt => true
  | _ => false
  end.

Definition QString_le (a b : string) : bool :=
  match units_compare (QString_units a) (QString_units b) with
  | Gt => false
  | _ => true
  end.

(** ** JSON values *)

#[warnings="-register-all"]
Inductive QJsonValue : Type :=
| JUndefined
| JNull
| JBool (b : bool)
| JDouble (d : Z)        (* a number; nothing below looks inside *)
| JString (s : string)
| JArray (l : list QJsonValue)
| JObject (o : gmap string QJsonValue).

(** [QJsonObject::operator[](key) const]: [Undefined] for an absent key. *)
Definition json_at (o : gmap string QJsonValue) (key : string) : QJsonValue :=
  default JUndefined (o !! key).

(** [QJsonValue::toString()]: the null string for anything but a string. *)
Definition toString (v : QJsonValue) : string :=
  match v with JString s => s | _ => "" end.

(** [QJsonValue::toObject()]: the empty object for anything but an object. *)
Definition toObject (v : QJsonValue) : gmap string QJsonValue :=
  match v with JObject o => o | _ => ∅ end.

(** ** What the translation unit takes from elsewhere *)

(** The interface version of the running application, macros of the
    generated header [albert/config.h], and the one Qt conversion that is
    kept abstract: [QJsonValue::toVariant().toStringList()], which the
    constructor applies to the list-valued metadata keys. *)
Class Platform : Type := {
  ALBERT_VERSION_MAJOR : N;
  ALBERT_VERSION_MINOR : N;
  toStringList : QJsonValue -> list string
}.

(** [QLocale], by the two strings the loader reads from it: [name()], such
    as de_AT, and [languageToCode(language())], such as de. *)
Record QLocale := {
  locale_name : string;
  locale_languageCode : string
}.

(** ** Plugin metadata *)

Inductive LoadType := Frontend | NoUnload | User.

Record PluginMetaData := {
  iid : string;
  id : string;
  version : string;
  name : string;
  description : string;
  license : string;
  url : string;
  authors : list string;
  runtime_dependencies : list string;
  binary_dependencies : list string;
  third_party_credits : list string;
  load_type : LoadType
}.

(** [QStringLiteral("%1[%2]").arg(key, tag)]. *)
Definition localized_key (key tag : string) : string :=
  key ++ "[" ++ tag ++ "]".

(** [fetchLocalizedMetadata]; the system locale is an argument. *)
Definition fetchLocalizedMetadata (locale : QLocale)
    (json : gmap string QJsonValue) (key : string) : string :=
  (* code and territory, e.g. de_AT *)
  let k := localized_key key (locale_name locale) in
  let v := toString (json_at json k) in
  if negb (isEmpty v) then v else
  let k := localized_key key (locale_languageCode locale) in
  let v := toString (json_at json k) in
  if negb (isEmpty v) then v else
  toString (json_at json key).

(** The [loadtype] branch of the constructor. *)
Definition parse_load_type (rawMetadata : gmap string QJsonValue) : LoadType :=
  let lt := toString (json_at rawMetadata "loadtype") in
  if String.eqb lt "frontend" then Frontend
  else if String.eqb lt "nounload" then NoUnload
  else User.

(** *** The three patterns *)

Definition regex_iid_pattern : string := "org.albert.PluginInterface/(\d+).(\d+)".

Definition regex_iid : regex :=
  Seq (Str "org") (Seq Any (Seq (Str "albert") (Seq Any
    (Seq (Str "PluginInterface/")
      (Seq (Group 1 (Plus digit)) (Seq Any (Group 2 (Plus digit)))))))).

Definition regex_version_pattern : string := "^(\d+)(?>\.(\d+))?\.(\d+)$".

Definition regex_version : regex :=
  Seq Bol (Seq (Group 1 (Plus digit))
    (Seq (Opt (Atomic (Seq (Chr ".") (Group 2 (Plus digit)))))
      (Seq (Chr ".") (Seq (Group 3 (Plus digit)) Eol)))).

Definition regex_id_pattern : string := "[a-z0-9_]".

Definition regex_id : regex :=
  Class [("a"%char, "z"%char); ("0"%char, "9"%char); ("_"%char, "_"%char)].

(** *** Error messages, as [QString::arg] fills them in *)

Definition error_iid_pattern (captured_text pattern : string) : string :=
  "Invalid IID pattern: '" ++ captured_text ++ "'. Expected '" ++ pattern ++ "'.".

Definition error_major (plugin_iid_major expected : N) : string :=
  "Incompatible major version: " ++ pretty plugin_iid_major ++
  ". Expected: " ++ pretty expected ++ ".".

Definition error_minor (plugin_iid_minor supported : N) : string :=
  "Incompatible minor version: " ++ pretty plugin_iid_minor ++
  ". Supported up to: " ++ pretty supported ++ ".".

Definition error_version : string := "Invalid version scheme. Use '<version>.<patch>'.".

Definition error_id : string := "Invalid plugin id. Use [a-z0-9_].".

Definition error_name : string := "'name' must not be empty.".

Definition error_description : string := "'description' must not be empty.".

(** [QStringList::operator<<]. *)
Definition QStringList_append (l : list string) (s : string) : list string :=
  (l ++ [s])%list.
Infix "<<" := QStringList_append (at level 50, left associativity).

(** What a constructor or a method hands back: a value, or the [what()] of
    the [std::runtime_error] it throws. *)
Inductive result (A : Type) : Type :=
| Returned (a : A)
| Thrown (what : string).
Arguments Returned {A} a.
Arguments Thrown {A} what.

Section Construction.
Context {platform : Platform}.

(** The block of the constructor under "Extract metadata", once the
    interface id is known to be there. *)
Definition extract_metadata (locale : QLocale) (the_iid : string)
    (rawMetadata : gmap string QJsonValue) : PluginMetaData :=
  {| iid := the_iid;
     id := toString (json_at rawMetadata "id");
     version := toString (json_at rawMetadata "version");
     name := fetchLocalizedMetadata locale rawMetadata "name";
     description := fetchLocalizedMetadata locale rawMetadata "description";
     license := toString (json_at rawMetadata "license");
     url := toString (json_at rawMetadata "url");
     authors := toStringList (json_at rawMetadata "authors");
     runtime_dependencies := toStringList (json_at rawMetadata "runtime_dependencies");
     binary_dependencies := toStringList (json_at rawMetadata "binary_dependencies");
     third_party_credits := toStringList (json_at rawMetadata "credits");
     load_type := parse_load_type rawMetadata |}.

(** The interface id check: one [if] / [else if] chain, so at most one
    entry comes out of it. *)
Definition validate_iid (errors : list string) (metadata_ : PluginMetaData) : list string :=
  let iid_match := QRegularExpression_match regex_iid (iid metadata_) in
  if negb (hasMatch iid_match) then
    errors << error_iid_pattern (captured iid_match 0) regex_iid_pattern
  else
    let plugin_iid_major := toUInt (captured iid_match 1) in
    if negb (plugin_iid_major =? ALBERT_VERSION_MAJOR)%N then
      errors << error_major plugin_iid_major ALBERT_VERSION_MAJOR
    else
      let plugin_iid_minor := toUInt (captured iid_match 2) in
      if (ALBERT_VERSION_MINOR <? plugin_iid_minor)%N then
        errors << error_minor plugin_iid_minor ALBERT_VERSION_MINOR
      else errors.

(** The block of the constructor under "Validate metadata": the list
    [errors] as it stands when the final test is reached. *)
Definition validate (metadata_ : PluginMetaData) : list string :=
  let errors := [] in
  let errors := validate_iid errors metadata_ in
  let errors :=
    if negb (hasMatch (QRegularExpression_match regex_version (version metadata_)))
    then errors << error_version else errors in
  let errors :=
    if negb (hasMatch (QRegularExpression_match regex_id (id metadata_)))
    then errors << error_id else errors in
  let errors :=
    if isEmpty (name metadata_) then errors << error_name else errors in
  let errors :=
    if isEmpty (description metadata_) then errors << error_description else errors in
  errors.

End Construction.

(** ** The loader object *)

(** [QLibrary::LoadHint]. *)
Inductive LoadHint :=
| ResolveAllSymbolsHint
| ExportExternalSymbolsHint
| LoadArchiveMemberHint
| PreventUnloadHint
| DeepBindHint.

(** [QPluginLoader], the Qt handle on the native module. *)
Record QPluginLoader := {
  fileName : string;
  loadHints : list LoadHint;
  metaData : gmap string QJsonValue;
  errorString : string
}.

Definition setLoadHints (hints : list LoadHint) (l : QPluginLoader) : QPluginLoader :=
  {| fileName := fileName l; loadHints := hints;
     metaData := metaData l; errorString := errorString l |}.

(** A [QObject] on the heap: where it lives, and whether its dynamic type
    derives from [albert::PluginInstance]. *)
Record QObject := {
  address : N;
  is_PluginInstance : bool
}.

(** [dynamic_cast<PluginInstance*>]. *)
Definition dynamic_cast_PluginInstance (o : QObject) : option QObject :=
  if is_PluginInstance o then Some o else None.

(** What the dynamic linker does is not the loader's to decide:
    [QPluginLoader::instance()] yields the root component or a null
    pointer, [QPluginLoader::unload()] says whether the module went away;
    both may leave the handle changed, its error string included. *)
Class NativeModules : Type := {
  QPluginLoader_instance : QPluginLoader -> option QObject * QPluginLoader;
  QPluginLoader_unload : QPluginLoader -> bool * QPluginLoader
}.

(** Modelled from the spec: the states of a loader.  The enumeration
    [PluginState] is declared in a header that is not part of the sources
    at hand; the specification lists Unloaded, Loading, Loaded, Unloading
    and Failed. *)
Inductive PluginState := Unloaded | Loading | Loaded | Unloading | Failed.

#[global] Instance PluginState_eq_dec : EqDecision PluginState.
Proof. solve_decision. Defined.

(** Modelled from the spec: the base class [PluginLoader], which keeps the
    path and the state that [state()] reports; a loader starts Unloaded. *)
Record PluginLoader := {
  path : string;
  state : PluginState
}.

Definition PluginLoader_ctor (p : string) : PluginLoader :=
  {| path := p; state := Unloaded |}.

Record QtPluginLoader := {
  base : PluginLoader;
  loader : QPluginLoader;
  provider_ : N;                      (* a reference, kept as an address *)
  metadata_ : PluginMetaData;
  instance_ : option QObject          (* [None] is the null pointer *)
}.

(** What can be observed of a run from outside the object, in order. *)
Inductive QtMsgType := QtDebugMsg | QtInfoMsg | QtWarningMsg | QtCriticalMsg.

Inductive Event :=
| Deleted (o : QObject)                        (* a [delete] of a live object *)
| NativeUnload (ok : bool)                     (* [QPluginLoader::unload()] returned *)
| NativeInstance (o : option QObject)          (* [QPluginLoader::instance()] returned *)
| Logged (level : QtMsgType) (items : list string).  (* one logging statement *)

Section Loader.
Context {platform : Platform} {native : NativeModules}.

(** [QtPluginLoader::QtPluginLoader(provider, p)]; [fresh] is the handle
    that [QPluginLoader(p)] makes for the file. *)
Definition QtPluginLoader_ctor (locale : QLocale) (provider : N) (p : string)
    (fresh : QPluginLoader) : result QtPluginLoader :=
  let base0 := PluginLoader_ctor p in
  let loader0 := setLoadHints [ExportExternalSymbolsHint; PreventUnloadHint] fresh in
  (* Extract metadata *)
  let the_iid := toString (json_at (metaData loader0) "IID") in
  if isEmpty the_iid then Thrown "Not an albert plugin" else
  let rawMetadata := toObject (json_at (metaData loader0) "MetaData") in
  let md := extract_metadata locale the_iid rawMetadata in
  (* Validate metadata *)
  let errors := validate md in
  if negb (bool_decide (errors = [])) then Thrown (join ", " errors) else
  Returned {| base := base0; loader := loader0; provider_ := provider;
              metadata_ := md; instance_ := None |}.

(** [QtPluginLoader::~QtPluginLoader()]: the body returns; what it logged
    is appended to the trace. *)
Definition QtPluginLoader_dtor (self : QtPluginLoader) (trace : list Event)
    : result unit * list Event :=
  if bool_decide (state (base self) <> Unloaded)
  then (Returned tt,
        (trace ++ [Logged QtWarningMsg
           ["Logic error: QtPluginLoader destroyed in non Unloaded state:";
            id (metadata_ self)]])%list)
  else (Returned tt, trace).

Definition set_instance_ (self : QtPluginLoader) (i : option QObject) : QtPluginLoader :=
  {| base := base self; loader := loader self; provider_ := provider_ self;
     metadata_ := metadata_ self; instance_ := i |}.

Definition set_loader (self : QtPluginLoader) (l : QPluginLoader) : QtPluginLoader :=
  {| base := base self; loader := l; provider_ := provider_ self;
     metadata_ := metadata_ self; instance_ := instance_ self |}.

(** [QtPluginLoader::load()]. *)
Definition load (self : QtPluginLoader) (trace : list Event)
    : string * QtPluginLoader * list Event :=
  let '(instance, l) := QPluginLoader_instance (loader self) in
  let self := set_loader self l in
  let trace := (trace ++ [NativeInstance instance])%list in
  match instance with
  | Some o =>
      let self := set_instance_ self (dynamic_cast_PluginInstance o) in
      match instance_ self with
      | Some _ => ("", self, trace)
      | None => ("Plugin is not of type albert::PluginInstance.", self, trace)
      end
  | None => (errorString (loader self), self, trace)
  end.

(** The three statements of [QtPluginLoader::unload()], one by one. *)

(** [delete instance_;]  Deleting the null pointer does nothing. *)
Definition unload_delete (self : QtPluginLoader) (trace : list Event)
    : QtPluginLoader * list Event :=
  match instance_ self with
  | Some o => (self, (trace ++ [Deleted o])%list)
  | None => (self, trace)
  end.

(** [instance_ = nullptr;] *)
Definition unload_clear (self : QtPluginLoader) (trace : list Event)
    : QtPluginLoader * list Event :=
  (set_instance_ self None, trace).

(** [return loader.unload() ? QString{} : loader.errorString();] *)
Definition unload_release (self : QtPluginLoader) (trace : list Event)
    : string * QtPluginLoader * list Event :=
  let '(ok, l) := QPluginLoader_unload (loader self) in
  let self := set_loader self l in
  let trace := (trace ++ [NativeUnload ok])%list in
  (if ok then "" else errorString (loader self), self, trace).

(** [QtPluginLoader::unload()]. *)
Definition unload (self : QtPluginLoader) (trace : list Event)
    : string * QtPluginLoader * list Event :=
  let '(self, trace) := unload_delete self trace in
  let '(self, trace) := unload_clear self trace in
  unload_release self trace.

(** [QtPluginLoader::instance()], [provider()] and [metaData()]. *)
Definition instance (self : QtPluginLoader) : option QObject := instance_ self.

Definition provider (self : QtPluginLoader) : N := provider_ self.

Definition QtPluginLoader_metaData (self : QtPluginLoader) : PluginMetaData :=
  metadata_ self.

End Loader.

(** ** The trigger table of the settings window *)
Module TriggerWidget.

(** [enum class Column], and its value as an [int]. *)
Inductive Column := Name | Trigger | Description.

Definition column_int (c : Column) : Z :=
  match c with Name => 0 | Trigger => 1 | Description => 2 end.

(** [Qt::ItemDataRole] and [Qt::CheckState], by their values. *)
Definition DisplayRole : Z := 0.
Definition EditRole : Z := 2.
Definition CheckStateRole : Z := 10.
Definition Checked : N := 2.

Record QModelIndex := { row : Z; column : Z }.

(** [QVariant], by the two conversions [setData] applies to it. *)
Record QVariant := {
  QVariant_toString : string;
  QVariant_toUInt : N
}.

(** A query handler behind its pointer. *)
Record QueryHandler := {
  handler_address : N;
  handler_id : string;
  handler_name : string;
  handler_description : string;
  allow_trigger_remap : bool
}.

Record HandlerConfig := { trigger : string; enabled : bool }.

(** The query engine is declared in [queryengine.h], which is not among
    the sources at hand: it is taken by its interface.  [handlerConfig] is
    the map in iteration order. *)
Class QueryEngineOps (QueryEngine : Type) : Type := {
  handlerConfig : QueryEngine -> list (QueryHandler * HandlerConfig);
  activeTriggers : QueryEngine -> gmap string QueryHandler;
  setTrigger : QueryEngine -> QueryHandler -> string -> QueryEngine;
  setEnabled : QueryEngine -> QueryHandler -> bool -> QueryEngine
}.

(** [TriggerModel::Entry]. *)
Record Entry := {
  handler : QueryHandler;
  entry_trigger : string;
  entry_enabled : bool
}.

(** Calls into the engine and signals, in the order they happen. *)
Inductive Effect :=
| Call_setTrigger (h : QueryHandler) (t : string)
| Call_setEnabled (h : QueryHandler) (b : bool)
| Emit_dataChanged (topLeft bottomRight : QModelIndex) (roles : list Z).

(** How a [const] member function ends: with a value, with the
    [std::out_of_range] of [std::map::at], or, having indexed the vector
    outside its bounds, in no defined way. *)
Inductive Outcome (A : Type) : Type :=
| Gives (a : A)
| ThrowsOutOfRange
| Undefined.
Arguments Gives {A} a.
Arguments ThrowsOutOfRange {A}.
Arguments Undefined {A}.

Section Model.
Context {QueryEngine : Type} {ops : QueryEngineOps QueryEngine}.

Record TriggerModel := {
  query_handlers : list Entry;
  engine : QueryEngine
}.

(** The comparison given to [sort]. *)
Definition by_id (a b : Entry) : bool :=
  QString_lt (handler_id (handler a)) (handler_id (handler b)).

Fixpoint insert_sorted (e : Entry) (l : list Entry) : list Entry :=
  match l with
  | [] => [e]
  | x :: l' => if by_id x e then x :: insert_sorted e l' else e :: l
  end.

(** [::sort(begin, end, by_id)]; handlers have distinct ids, so the
    order of the result is determined. *)
Definition sort_entries (l : list Entry) : list Entry :=
  fold_right insert_sorted [] l.

(** [TriggerModel::update()]. *)
Definition update (m : TriggerModel) : TriggerModel :=
  let fresh :=
    map (fun hc => {| handler := fst hc;
                      entry_trigger := trigger (snd hc);
                      entry_enabled := enabled (snd hc) |})
        (handlerConfig (engine m)) in
  {| query_handlers := sort_entries fresh; engine := engine m |}.

Definition rowCount (m : TriggerModel) : Z := Z.of_nat (length (query_handlers m)).
Definition columnCount (m : TriggerModel) : Z := 3.

(** [QAbstractTableModel::index(row, column)]: the invalid index when
    the cell is not in the table. *)
Definition index (m : TriggerModel) (r c : Z) : QModelIndex :=
  if ((0 <=? r) && (r <? rowCount m) && (0 <=? c) && (c <? columnCount m))%Z
  then {| row := r; column := c |}
  else {| row := -1; column := -1 |}.

(** [query_handlers[i]] of the [std::vector]: outside the bounds the
    behaviour is undefined, here [None]. *)
Definition entry_at (m : TriggerModel) (i : Z) : option Entry :=
  if (0 <=? i)%Z then query_handlers m !! Z.to_nat i else None.

(** [TriggerModel::setData(idx, value, role)]: the value returned, the
    model afterwards and what it did on the way; [None] where the C++
    has no defined behaviour. *)
Definition setData (m : TriggerModel) (idx : QModelIndex) (value : QVariant)
    (role : Z) : option (bool * TriggerModel * list Effect) :=
  if (column idx =? column_int Trigger)%Z then
    if (role =? EditRole)%Z then
      if isEmpty (QVariant_toString value) then Some (false, m, [])
      else
        match entry_at m (row idx) with
        | None => None
        | Some e =>
            let h := handler e in
            let t := QVariant_toString value in
            let m1 := {| query_handlers := query_handlers m;
                         engine := setTrigger (engine m) h t |} in
            let m2 := update m1 in
            Some (true, m2,
                  [Call_setTrigger h t;
                   Emit_dataChanged (index m2 0 (column_int Trigger))
                                    (index m2 0 (column_int Trigger))
                                    [DisplayRole]])
        end
    else if (role =? CheckStateRole)%Z then
      match entry_at m (row idx) with
      | None => None
      | Some e =>
          let h := handler e in
          let b := (QVariant_toUInt value =? Checked)%N in
          let m1 := {| query_handlers := query_handlers m;
                       engine := setEnabled (engine m) h b |} in
          let m2 := update m1 in
          Some (true, m2, [Call_setEnabled h b; Emit_dataChanged idx idx [CheckStateRole]])
      end
    else Some (false, m, [])
  else Some (false, m, []).

(** [TriggerModel::TriggerModel(registry, engine)]: the table is filled
    by [update]. *)
Definition TriggerModel_ctor (e : QueryEngine) : TriggerModel :=
  update {| query_handlers := []; engine := e |}.

(** [beginResetModel()] and [endResetModel()], as the view hears them. *)
Inductive ResetSignal := BeginResetModel | EndResetModel.

(** [TriggerModel::onAdd] and [TriggerModel::onRem]: the same body. *)
Definition onAdd (m : TriggerModel) (t : QueryHandler) : TriggerModel * list ResetSignal :=
  (update m, [BeginResetModel; EndResetModel]).

Definition onRem (m : TriggerModel) (t : QueryHandler) : TriggerModel * list ResetSignal :=
  (update m, [BeginResetModel; EndResetModel]).

Definition ToolTipRole : Z := 3.
Definition FontRole : Z := 6.
Definition ForegroundRole : Z := 9.
Definition Unchecked : N := 0.

(** What [data] and [headerData] hand to the view: a [QVariant] by its
    content. *)
Inductive CellValue :=
| NoValue                      (* [QVariant()] *)
| TextValue (s : string)
| CheckValue (state : N)
| ItalicFont                   (* a [QFont] with italic set *)
| RedColor.                    (* [QColor(Qt::red)] *)

(** U+1680, the mark shown in place of a space, in UTF-8. *)
Definition visible_space : string :=
  String "225"%char (String "154"%char (String "128"%char EmptyString)).

(** [QString::replace(" ", mark)], on text in UTF-8. *)
Fixpoint replace_space (s : string) : string :=
  match s with
  | EmptyString => EmptyString
  | String a s' =>
      if Ascii.eqb a " "%char then visible_space ++ replace_space s'
      else String a (replace_space s')
  end.

(** [entry.enabled && engine.activeTriggers().at(entry.trigger) != entry.handler]:
    the handler that holds the trigger when it is another one.  The map is
    only asked when the entry is enabled; pointers compare by address. *)
Definition reserved_by (m : TriggerModel) (entry : Entry) : Outcome (option QueryHandler) :=
  if entry_enabled entry then
    match activeTriggers (engine m) !! entry_trigger entry with
    | Some h =>
        if (handler_address h =? handler_address (handler entry))%N
        then Gives None else Gives (Some h)
    | None => ThrowsOutOfRange
    end
  else Gives None.

Definition remap_notice : string := "This extension does not allow trigger remapping.".

Definition conflict_notice (t owner : string) : string :=
  "Trigger conflict: '" ++ t ++ "' reserved by extension '" ++ owner ++ "'.".

(** [TriggerModel::data(index, role)]. *)
Definition data (m : TriggerModel) (idx : QModelIndex) (role : Z) : Outcome CellValue :=
  if (column idx =? column_int Name)%Z then
    if (role =? DisplayRole)%Z then
      match entry_at m (row idx) with
      | Some e => Gives (TextValue (handler_name (handler e)))
      | None => Undefined
      end
    else Gives NoValue
  else if (column idx =? column_int Description)%Z then
    if (role =? DisplayRole)%Z then
      match entry_at m (row idx) with
      | Some e => Gives (TextValue (handler_description (handler e)))
      | None => Undefined
      end
    else Gives NoValue
  else if (column idx =? column_int Trigger)%Z then
    match entry_at m (row idx) with
    | None => Undefined
    | Some entry =>
        if (role =? DisplayRole)%Z then
          Gives (TextValue (replace_space (entry_trigger entry)))
        else if (role =? EditRole)%Z then
          Gives (TextValue (entry_trigger entry))
        else if (role =? ToolTipRole)%Z then
          let sl := [] in
          let sl := if negb (allow_trigger_remap (handler entry))
                    then sl << remap_notice else sl in
          match reserved_by m entry with
          | ThrowsOutOfRange => ThrowsOutOfRange
          | Undefined => Undefined
          | Gives other =>
              let sl := match other with
                        | Some h => sl << conflict_notice (entry_trigger entry) (handler_name h)
                        | None => sl
                        end in
              if negb (bool_decide (sl = [])) then Gives (TextValue (join " " sl))
              else Gives NoValue
          end
        else if (role =? CheckStateRole)%Z then
          Gives (CheckValue (if entry_enabled entry then Checked else Unchecked))
        else if (role =? FontRole)%Z then
          if negb (allow_trigger_remap (handler entry)) then Gives ItalicFont
          else Gives NoValue
        else if (role =? ForegroundRole)%Z then
          match reserved_by m entry with
          | ThrowsOutOfRange => ThrowsOutOfRange
          | Undefined => Undefined
          | Gives (Some _) => Gives RedColor
          | Gives None => Gives NoValue
          end
        else Gives NoValue
    end
  else Gives NoValue.

(** [TriggerModel::headerData(section, orientation, role)]; the
    orientation is not looked at. *)
Inductive Orientation := Horizontal | Vertical.

Definition headerData (section : Z) (orientation : Orientation) (role : Z) : CellValue :=
  if (role =? DisplayRole)%Z then
    if (section =? column_int Name)%Z then TextValue "Extension"
    else if (section =? column_int Trigger)%Z then TextValue "Trigger"
    else if (section =? column_int Description)%Z then TextValue "Description"
    else NoValue
  else NoValue.

(** [Qt::ItemFlag], the four the model uses. *)
Inductive ItemFlag := ItemIsSelectable | ItemIsEditable | ItemIsUserCheckable | ItemIsEnabled.

(** [TriggerModel::flags(index)]. *)
Definition flags (m : TriggerModel) (idx : QModelIndex) : Outcome (list ItemFlag) :=
  if ((column idx =? column_int Name) || (column idx =? column_int Description))%Z then
    Gives [ItemIsEnabled; ItemIsSelectable]
  else if (column idx =? column_int Trigger)%Z then
    match entry_at m (row idx) with
    | None => Undefined
    | Some e =>
        if allow_trigger_remap (handler e)
        then Gives [ItemIsEnabled; ItemIsSelectable; ItemIsUserCheckable; ItemIsEditable]
        else Gives [ItemIsEnabled; ItemIsSelectable; ItemIsUserCheckable]
    end
  else Gives [].

End Model.

End TriggerWidget.

(** ** The properties as the specification words them

    Each definition below follows a sentence of the specification, to be
    compared with what the code does. *)

(** The kind of an entry of the error list, read off its text. *)
Definition is_iid_pattern_error (e : string) : bool := startsWith e "Invalid IID pattern: ".
Definition is_major_error (e : string) : bool := startsWith e "Incompatible major version: ".
Definition is_minor_error (e : string) : bool := startsWith e "Incompatible minor version: ".

(** "id must match [a-z0-9_]+": a non-empty string of lowercase letters,
    digits and underscores, and nothing else. *)
Definition id_class : list (ascii * ascii) :=
  [("a"%char, "z"%char); ("0"%char, "9"%char); ("_"%char, "_"%char)].

Definition well_formed_id (s : string) : bool :=
  negb (isEmpty s) && string_forallb (in_class id_class) s.

(** "key[lang_COUNTRY] -> key[lang] -> key": an entry counts when it is
    there and holds a non-empty string. *)
Definition nonempty_entry (json : gmap string QJsonValue) (k : string) : option string :=
  match json !! k with
  | Some (JString (String a v)) => Some (String a v)
  | _ => None
  end.

Definition resolve_localized (locale : QLocale) (json : gmap string QJsonValue)
    (key : string) : string :=
  match nonempty_entry json (key ++ "[" ++ locale_name locale ++ "]") with
  | Some v => v
  | None =>
      match nonempty_entry json (key ++ "[" ++ locale_languageCode locale ++ "]") with
      | Some v => v
      | None => toString (json_at json key)
      end
  end.

Section AsSpecified.
Context {platform : Platform}.



End AsSpecified.

(** A platform and a dynamic linker to run examples on. *)
Definition example_platform : Platform :=
  {| ALBERT_VERSION_MAJOR := 0; ALBERT_VERSION_MINOR := 20;
     toStringList := fun v =>
       match v with
       | JString s => [s]
       | JArray l => map toString l
       | _ => []
       end |}.

Definition example_locale : QLocale :=
  {| locale_name := "de_AT"; locale_languageCode := "de" |}.

(** Metadata with the given interface id, id, version, name and
    description, and nothing else. *)
Definition example_metadata (the_iid the_id the_version the_name the_description : string)
    : PluginMetaData :=
  {| iid := the_iid; id := the_id; version := the_version;
     name := the_name; description := the_description;
     license := ""; url := ""; authors := [];
     runtime_dependencies := []; binary_dependencies := [];
     third_party_credits := []; load_type := User |}.

(** The handle Qt makes for a file with the given metadata. *)
Definition example_handle (meta : gmap string QJsonValue) : QPluginLoader :=
  {| fileName := "/usr/lib/albert/plugin.so"; loadHints := [];
     metaData := meta; errorString := "" |}.

Definition example_rawMetadata : gmap string QJsonValue :=
  <["id" := JString "calculator"]>
  (<["version" := JString "1.4"]>
  (<["name" := JString "Calculator"]>
  (<["name[de]" := JString "Rechner"]>
  (<["description" := JString "Evaluate math expressions"]> ∅)))).


(** An interface id with U+00E9, two bytes in UTF-8, where the pattern
    has its first dot. *)
Definition example_accented_iid : string :=
  "org" ++ String "195"%char (String "169"%char "albert.PluginInterface/0.20").


(** A plugin with a valid interface id and the metadata above. *)
Definition example_plugin : QPluginLoader :=
  example_handle
    (<["IID" := JString "org.albert.PluginInterface/0.20"]>
     (<["MetaData" := JObject example_rawMetadata]> ∅)).

(** A dynamic linker that always resolves to [root], or fails with
    [message] when there is none, and whose unloading succeeds or fails
    with [message] as [unload_ok] says. *)
Definition example_native (root : option QObject) (unload_ok : bool) (message : string)
    : NativeModules :=
  {| QPluginLoader_instance := fun l =>
       (root,
        {| fileName := fileName l; loadHints := loadHints l; metaData := metaData l;
           errorString := match root with Some _ => "" | None => message end |});
     QPluginLoader_unload := fun l =>
       (unload_ok,
        {| fileName := fileName l; loadHints := loadHints l; metaData := metaData l;
           errorString := if unload_ok then "" else message |}) |}.

Definition example_plain_object : QObject :=
  {| address := 4096; is_PluginInstance := false |}.

Definition example_plugin_object : QObject :=
  {| address := 8192; is_PluginInstance := true |}.

(** A loader of the example plugin in a given state, holding a given
    instance. *)
Definition example_loader (st : PluginState) (inst : option QObject) : QtPluginLoader :=
  {| base := {| path := "/usr/lib/albert/plugin.so"; state := st |};
     loader := example_plugin;
     provider_ := 7;
     metadata_ := extract_metadata (platform := example_platform) example_locale
                    "org.albert.PluginInterface/0.20" example_rawMetadata;
     instance_ := inst |}.

(** A plugin with a valid interface id and id, a one-part version, and
    neither name nor description. *)
Definition example_bad_plugin : QPluginLoader :=
  example_handle
    (<["IID" := JString "org.albert.PluginInterface/0.20"]>
     (<["MetaData" := JObject (<["id" := JString "calculator"]>
                               (<["version" := JString "1"]> ∅))]> ∅)).

(** A query engine to run the trigger table on: the configuration as a
    list, the first enabled handler of a trigger being the active one. *)
Module ExampleEngine.
Import TriggerWidget.

Definition configure (f : HandlerConfig -> HandlerConfig) (h : QueryHandler)
    (e : list (QueryHandler * HandlerConfig)) : list (QueryHandler * HandlerConfig) :=
  map (fun hc =>
         if (handler_address (fst hc) =? handler_address h)%N
         then (fst hc, f (snd hc)) else hc) e.

#[export] Instance ops : QueryEngineOps (list (QueryHandler * HandlerConfig)) :=
  {| handlerConfig := fun e => e;
     activeTriggers := fun e =>
       list_to_map (map (fun hc => (trigger (snd hc), fst hc))
                        (filter (fun hc => enabled (snd hc) = true) e));
     setTrigger := fun e h t =>
       configure (fun c => {| trigger := t; enabled := enabled c |}) h e;
     setEnabled := fun e h b =>
       configure (fun c => {| trigger := trigger c; enabled := b |}) h e |}.

Definition files : QueryHandler :=
  {| handler_address := 100; handler_id := "files"; handler_name := "Files";
     handler_description := "Find files"; allow_trigger_remap := true |}.

Definition apps : QueryHandler :=
  {| handler_address := 200; handler_id := "applications";
     handler_name := "Applications"; handler_description := "Launch applications";
     allow_trigger_remap := true |}.

Definition engine0 : list (QueryHandler * HandlerConfig) :=
  [(files, {| trigger := "f "; enabled := true |});
   (apps, {| trigger := "app "; enabled := true |})].

Definition model0 : TriggerModel :=
  update {| query_handlers := []; engine := engine0 |}.

(** A handler that does not allow its trigger to be remapped, and an
    engine that has it. *)
Definition fixed : QueryHandler :=
  {| handler_address := 300; handler_id := "calculator"; handler_name := "Calculator";
     handler_description := "Evaluate expressions"; allow_trigger_remap := false |}.

Definition engine1 : list (QueryHandler * HandlerConfig) :=
  [(files, {| trigger := "f "; enabled := true |});
   (apps, {| trigger := "f "; enabled := true |});
   (fixed, {| trigger := "= "; enabled := false |})].

Definition model1 : TriggerModel :=
  update {| query_handlers := []; engine := engine1 |}.

(** The first engine once the calculator is registered. *)
Definition engine2 : list (QueryHandler * HandlerConfig) :=
  engine0 ++ [(fixed, {| trigger := "= "; enabled := false |})].

(** Two handlers whose ids are one code point each: U+E000, of one code
    unit, and U+10000, of two. *)
Definition private_use : QueryHandler :=
  {| handler_address := 400;
     handler_id := String "238"%char (String "128"%char (String "128"%char ""));
     handler_name := "Private"; handler_description := "";
     allow_trigger_remap := true |}.

Definition supplementary : QueryHandler :=
  {| handler_address := 500;
     handler_id :=
       String "240"%char (String "144"%char (String "128"%char (String "128"%char "")));
     handler_name := "Supplementary"; handler_description := "";
     allow_trigger_remap := true |}.

Definition engine3 : list (QueryHandler * HandlerConfig) :=
  [(private_use, {| trigger := "p "; enabled := true |});
   (supplementary, {| trigger := "s "; enabled := true |})].

Definition empty_value : QVariant :=
  {| QVariant_toString := ""; QVariant_toUInt := 0 |}.

Definition text_value (s : string) : QVariant :=
  {| QVariant_toString := s; QVariant_toUInt := toUInt s |}.
End ExampleEngine.

(** ** Notions used to state further properties *)

(** The loop that [run] makes for [Plus], by its name. *)
Definition plus_loop (r1 : regex) (k : cursor -> option cursor) : nat -> cursor -> option cursor :=
  fix loop (n : nat) (c0 : cursor) : option cursor :=
    run r1 c0 (fun c' =>
      match n with
      | S n' =>
          if (pos c0 <? pos c')%nat
          then orelse (loop n' c') (k c')
          else k c'
      | O => k c'
      end).

(** The cursor [c] once it has read [w], with [r] still ahead. *)
Definition after (c : cursor) (w r : string) : cursor :=
  {| pos := String.length w + pos c; rest := r; caps := caps c |}.

(** The cursor [c] once group [n] has read [w], with [r] still ahead. *)
Definition after_group (n : nat) (c : cursor) (w r : string) : cursor :=
  {| pos := String.length w + pos c; rest := r; caps := <[n := w]> (caps c) |}.

(** Whether a text starts with a character of a class. *)
Definition starts_in_class (rs : list (ascii * ascii)) (r : string) : bool :=
  match r with
  | EmptyString => false
  | String b _ => in_class rs b
  end.

(** A non-empty run of ASCII digits. *)
Definition digits_run (w : string) : Prop :=
  w <> "" /\ string_forallb is_digit w = true.

(** Two or three runs of digits with dots between them, and possibly one
    line feed at the very end. *)
Definition version_shape (s : string) : Prop :=
  exists a b tail,
    digits_run a /\ digits_run b /\ (tail = "" \/ tail = String LF "") /\
    (s = a ++ "." ++ b ++ tail \/
     exists c, digits_run c /\ s = a ++ "." ++ b ++ "." ++ c ++ tail).

(** The interface id a plugin built against interface [major].[minor]
    declares. *)
Definition canonical_iid (major minor : N) : string :=
  "org.albert.PluginInterface/" ++ pretty major ++ "." ++ pretty minor.

(** The bytes of one code point: a first byte and as many continuation
    bytes as it announces. *)
Definition code_point (u : string) : Prop :=
  exists b t,
    u = String b t /\ utf8_following b = Some (String.length t) /\
    string_forallb is_continuation t = true.

(** Somewhere in the text: the three words with any code point but a line
    feed where the pattern has a dot, and two runs of digits with one such
    code point between them. *)
Definition iid_shape (s : string) : Prop :=
  exists pre x y w1 z w2 post,
    code_point x /\ x <> String LF "" /\
    code_point y /\ y <> String LF "" /\
    code_point z /\ z <> String LF "" /\
    digits_run w1 /\ digits_run w2 /\
    s = pre ++ "org" ++ x ++ "albert" ++ y ++ "PluginInterface/" ++ w1 ++ z ++ w2 ++ post.

(** The rows that [update] makes of a configuration, before sorting. *)
Definition rows_of (config : list (TriggerWidget.QueryHandler * TriggerWidget.HandlerConfig))
    : list TriggerWidget.Entry :=
  map (fun hc => {| TriggerWidget.handler := fst hc;
                    TriggerWidget.entry_trigger := TriggerWidget.trigger (snd hc);
                    TriggerWidget.entry_enabled := TriggerWidget.enabled (snd hc) |})
      config.

(** The pieces of a text between its spaces. *)
Fixpoint fields (s : string) : list string :=
  match s with
  | EmptyString => [EmptyString]
  | String a s' =>
      if Ascii.eqb a " "%char then EmptyString :: fields s'
      else
        match fields s' with
        | f :: fs => String a f :: fs
        | [] => [String a EmptyString]
        end
  end.

(** What can happen to the table, one after the other: a handler is added
    or removed, the engine being [e] when the model is told, or the view
    writes to a cell. *)
Inductive TableOp (QueryEngine : Type) : Type :=
| OpAdd (e : QueryEngine) (t : TriggerWidget.QueryHandler)
| OpRem (e : QueryEngine) (t : TriggerWidget.QueryHandler)
| OpSetData (idx : TriggerWidget.QModelIndex) (value : TriggerWidget.QVariant) (role : Z).
Arguments OpAdd {QueryEngine} e t.
Arguments OpRem {QueryEngine} e t.
Arguments OpSetData {QueryEngine} idx value role.

Definition table_step {QueryEngine : Type} {ops : TriggerWidget.QueryEngineOps QueryEngine}
    (m : TriggerWidget.TriggerModel) (o : TableOp QueryEngine)
    : option TriggerWidget.TriggerModel :=
  match o with
  | OpAdd e t =>
      Some (fst (TriggerWidget.onAdd
                   {| TriggerWidget.query_handlers := TriggerWidget.query_handlers m;
                      TriggerWidget.engine := e |} t))
  | OpRem e t =>
      Some (fst (TriggerWidget.onRem
                   {| TriggerWidget.query_handlers := TriggerWidget.query_handlers m;
                      TriggerWidget.engine := e |} t))
  | OpSetData idx value role =>
      match TriggerWidget.setData m idx value role with
      | Some (_, m', _) => Some m'
      | None => None
      end
  end.

Fixpoint table_run {QueryEngine : Type} {ops : TriggerWidget.QueryEngineOps QueryEngine}
    (m : TriggerWidget.TriggerModel) (os : list (TableOp QueryEngine))
    : option TriggerWidget.TriggerModel :=
  match os with
  | [] => Some m
  | o :: os' =>
      match table_step m o with
      | Some m' => table_run m' os'
      | None => None
      end
  end.

(** Row [a] may stand before row [b]: its handler id is less or equal. *)
Definition id_le (a b : TriggerWidget.Entry) : Prop :=
  QString_le (TriggerWidget.handler_id (TriggerWidget.handler a))
             (TriggerWidget.handler_id (TriggerWidget.handler b)) = true.

(** * Properties *)

(** ** The matcher on the three patterns *)

Example version_two_parts :
  hasMatch (QRegularExpression_match regex_version "0.5") = true.
Proof. reflexivity. Qed.

Example version_three_parts :
  hasMatch (QRegularExpression_match regex_version "12.0.345") = true.
Proof. reflexivity. Qed.

Example version_one_part :
  hasMatch (QRegularExpression_match regex_version "7") = false.
Proof. reflexivity. Qed.

Example version_four_parts :
  hasMatch (QRegularExpression_match regex_version "1.2.3.4") = false.
Proof. reflexivity. Qed.

Example version_letters :
  hasMatch (QRegularExpression_match regex_version "1.2-beta") = false.
Proof. reflexivity. Qed.

(** [$] also holds before a line feed that ends the subject. *)
Example version_trailing_newline :
  hasMatch (QRegularExpression_match regex_version ("1.2" ++ String LF "")) = true.
Proof. reflexivity. Qed.

(** The dots of the interface id pattern are not escaped and the pattern
    is not anchored: a digit can stand for the dot between the numbers. *)
Example iid_digit_for_dot :
  let m := QRegularExpression_match regex_iid "org.albert.PluginInterface/1234" in
  captured m 1 = "12" /\ captured m 2 = "4".
Proof. vm_compute. auto. Qed.

Example iid_captures :
  let m := QRegularExpression_match regex_iid "org.albert.PluginInterface/0.20" in
  captured m 0 = "org.albert.PluginInterface/0.20" /\
  captured m 1 = "0" /\ captured m 2 = "20".
Proof. vm_compute. auto. Qed.

Example iid_no_match :
  QRegularExpression_match regex_iid "org.albert.PluginInterface/0" = None.
Proof. reflexivity. Qed.

(** The dot reads a whole code point: the two bytes of U+00E9 stand for
    the first dot. *)
Example iid_dot_reads_a_code_point :
  let m := QRegularExpression_match regex_iid example_accented_iid in
  captured m 0 = example_accented_iid /\ captured m 1 = "0" /\ captured m 2 = "20".
Proof. vm_compute. auto. Qed.

Example iid_dot_reads_no_line_feed :
  QRegularExpression_match regex_iid
    ("org" ++ String LF "albert.PluginInterface/0.20") = None.
Proof. reflexivity. Qed.

Example validate_accented_iid :
  validate (platform := example_platform)
    (example_metadata example_accented_iid "calculator" "1.4"
       "Calculator" "Evaluate math expressions") = [].
Proof. reflexivity. Qed.

(** An unanchored one-character class finds a match exactly when some
    character of the subject is in the class. *)
Lemma search_class (rs : list (ascii * ascii)) (s : string) (p : nat) :
  hasMatch (search (Class rs) p s) = string_existsb (in_class rs) s.
Proof.
  revert p. induction s as [|a s IH]; intros p; simpl.
  - reflexivity.
  - destruct (in_class rs a); simpl; [reflexivity|]. apply IH.
Qed.

Lemma regex_id_hasMatch (s : string) :
  hasMatch (QRegularExpression_match regex_id s) = string_existsb (in_class id_class) s.
Proof. apply search_class. Qed.

(** ** What the interface id pattern captures *)

Lemma substring_app_prefix (w r : string) :
  substring 0 (String.length w) (w ++ r) = w.
Proof.
  induction w as [|a w IH]; simpl.
  - destruct r; reflexivity.
  - by rewrite IH.
Qed.








Lemma digit_class_forallb (w : string) :
  string_forallb (in_class [("0"%char, "9"%char)]) w = string_forallb is_digit w.
Proof.
  induction w as [|a w IH]; [reflexivity|]. simpl. rewrite IH. f_equal.
  unfold in_class, in_range, is_digit. simpl. by rewrite orb_false_r.
Qed.




(** ** The error list *)

Section ValidationFacts.
Context {platform : Platform}.

Lemma validate_iid_app (errors : list string) (md : PluginMetaData) :
  validate_iid errors md = (errors ++ validate_iid [] md)%list.
Proof.
  unfold validate_iid, QStringList_append.
  repeat match goal with |- context [if ?b then _ else _] => destruct b end;
    simpl; rewrite ?app_nil_r; reflexivity.
Qed.

(** The list is the concatenation of what each rule contributes, in the
    order of the checks. *)
Lemma validate_parts (md : PluginMetaData) :
  validate md =
    (validate_iid [] md
     ++ (if hasMatch (QRegularExpression_match regex_version (version md))
         then [] else [error_version])
     ++ (if hasMatch (QRegularExpression_match regex_id (id md))
         then [] else [error_id])
     ++ (if isEmpty (name md) then [error_name] else [])
     ++ (if isEmpty (description md) then [error_description] else []))%list.
Proof.
  unfold validate, QStringList_append.
  destruct (hasMatch (QRegularExpression_match regex_version (version md)));
  destruct (hasMatch (QRegularExpression_match regex_id (id md)));
  destruct (isEmpty (name md)); destruct (isEmpty (description md)); simpl;
    rewrite ?app_nil_r, <- ?app_assoc; reflexivity.
Qed.

(** The interface id check contributes nothing or one entry of its own
    three kinds. *)
Lemma validate_iid_kinds (md : PluginMetaData) (e : string) :
  In e (validate_iid [] md) ->
  is_iid_pattern_error e = true \/ is_major_error e = true \/ is_minor_error e = true.
Proof.
  unfold validate_iid, QStringList_append.
  repeat match goal with |- context [if ?b then _ else _] => destruct b end;
    simpl; intros H; try tauto; destruct H as [<-|[]];
    [left | right; left | right; right]; reflexivity.
Qed.

Lemma validate_iid_not (md : PluginMetaData) (e : string) :
  is_iid_pattern_error e = false -> is_major_error e = false ->
  is_minor_error e = false -> ~ In e (validate_iid [] md).
Proof.
  intros H1 H2 H3 H. apply validate_iid_kinds in H. intuition congruence.
Qed.

Lemma in_validate_version (md : PluginMetaData) :
  In error_version (validate md) <->
  hasMatch (QRegularExpression_match regex_version (version md)) = false.
Proof.
  rewrite validate_parts, !in_app_iff.
  pose proof (validate_iid_not md error_version eq_refl eq_refl eq_refl).
  destruct (hasMatch (QRegularExpression_match regex_version (version md)));
  destruct (hasMatch (QRegularExpression_match regex_id (id md)));
  destruct (isEmpty (name md)); destruct (isEmpty (description md)); simpl;
    intuition discriminate.
Qed.

Lemma in_validate_id (md : PluginMetaData) :
  In error_id (validate md) <->
  hasMatch (QRegularExpression_match regex_id (id md)) = false.
Proof.
  rewrite validate_parts, !in_app_iff.
  pose proof (validate_iid_not md error_id eq_refl eq_refl eq_refl).
  destruct (hasMatch (QRegularExpression_match regex_version (version md)));
  destruct (hasMatch (QRegularExpression_match regex_id (id md)));
  destruct (isEmpty (name md)); destruct (isEmpty (description md)); simpl;
    intuition discriminate.
Qed.

Lemma in_validate_name (md : PluginMetaData) :
  In error_name (validate md) <-> name md = "".
Proof.
  rewrite validate_parts, !in_app_iff.
  pose proof (validate_iid_not md error_name eq_refl eq_refl eq_refl).
  destruct (hasMatch (QRegularExpression_match regex_version (version md)));
  destruct (hasMatch (QRegularExpression_match regex_id (id md)));
  destruct (name md); destruct (isEmpty (description md)); simpl;
    intuition discriminate.
Qed.

Lemma in_validate_description (md : PluginMetaData) :
  In error_description (validate md) <-> description md = "".
Proof.
  rewrite validate_parts, !in_app_iff.
  pose proof (validate_iid_not md error_description eq_refl eq_refl eq_refl).
  destruct (hasMatch (QRegularExpression_match regex_version (version md)));
  destruct (hasMatch (QRegularExpression_match regex_id (id md)));
  destruct (name md); destruct (description md); simpl;
    intuition discriminate.
Qed.

End ValidationFacts.

(** ** Validation of the metadata *)

(** C1. Validation does not stop at the first violated rule: metadata with
    an empty name, an empty description and a version that does not match
    the version pattern gets the three entries, one per rule, all
    different, so the list has at least three entries. *)
Theorem C1_validation_collects_all_errors {platform : Platform} (md : PluginMetaData) :
  name md = "" ->
  description md = "" ->
  hasMatch (QRegularExpression_match regex_version (version md)) = false ->
  In error_version (validate md) /\
  In error_name (validate md) /\
  In error_description (validate md) /\
  NoDup [error_version; error_name; error_description] /\
  3 <= length (validate md).
Proof.
  intros Hn Hd Hv.
  split; [by apply in_validate_version|].
  split; [by apply in_validate_name|].
  split; [by apply in_validate_description|].
  split.
  - repeat constructor; rewrite ?list_elem_of_In; simpl; intuition discriminate.
  - rewrite validate_parts, Hn, Hd, Hv. simpl.
    destruct (hasMatch (QRegularExpression_match regex_id (id md)));
      rewrite length_app; simpl; lia.
Qed.

Lemma C1_validation_collects_all_errors_witness :
  let md := example_metadata "org.albert.PluginInterface/0.20" "calculator" "1" "" "" in
  In error_version (@validate example_platform md) /\
  In error_name (@validate example_platform md) /\
  In error_description (@validate example_platform md) /\
  NoDup [error_version; error_name; error_description] /\
  3 <= length (@validate example_platform md).
Proof.
  exact (@C1_validation_collects_all_errors example_platform
           (example_metadata "org.albert.PluginInterface/0.20" "calculator" "1" "" "")
           eq_refl eq_refl eq_refl).
Defined.

(** The id rule as the code has it: the entry is there exactly when no
    character of the id is a lowercase letter, a digit or an underscore. *)
Lemma id_rule_as_coded {platform : Platform} (md : PluginMetaData) :
  In error_id (validate md) <-> string_existsb (in_class id_class) (id md) = false.
Proof. rewrite in_validate_id, regex_id_hasMatch. reflexivity. Qed.

(** C4, at an input where the code departs from it: an id with an
    uppercase letter, a space and an exclamation mark is not well formed,
    and validation has no entry for it. *)
Theorem C4_id_check_misses_stray_characters :
  let md := example_metadata "org.albert.PluginInterface/0.20" "My Plugin!" "1.0"
              "My Plugin" "Does things" in
  well_formed_id (id md) = false /\
  ~ In error_id (@validate example_platform md) /\
  @validate example_platform md = [].
Proof.
  split; [reflexivity|]. split; [|reflexivity].
  rewrite id_rule_as_coded. discriminate.
Qed.

(** ** The interface id rule *)

Section InterfaceId.
Context {platform : Platform}.

(** Entries of the other rules are of none of the three kinds. *)
Lemma existsb_validate (f : string -> bool) (md : PluginMetaData) :
  f error_version = false -> f error_id = false ->
  f error_name = false -> f error_description = false ->
  existsb f (validate md) = existsb f (validate_iid [] md).
Proof.
  intros Hv Hi Hn Hd. rewrite validate_parts, !existsb_app.
  destruct (hasMatch (QRegularExpression_match regex_version (version md)));
  destruct (hasMatch (QRegularExpression_match regex_id (id md)));
  destruct (isEmpty (name md)); destruct (isEmpty (description md)); simpl;
    rewrite ?Hv, ?Hi, ?Hn, ?Hd, ?orb_false_r; reflexivity.
Qed.

Lemma validate_iid_no_match (md : PluginMetaData) :
  hasMatch (QRegularExpression_match regex_iid (iid md)) = false ->
  validate_iid [] md = [error_iid_pattern "" regex_iid_pattern].
Proof.
  unfold validate_iid. intros H. rewrite H. simpl.
  destruct (QRegularExpression_match regex_iid (iid md)); [discriminate|reflexivity].
Qed.

Lemma validate_iid_match (md : PluginMetaData) :
  let m := QRegularExpression_match regex_iid (iid md) in
  hasMatch m = true ->
  validate_iid [] md =
    if negb (toUInt (captured m 1) =? ALBERT_VERSION_MAJOR)%N
    then [error_major (toUInt (captured m 1)) ALBERT_VERSION_MAJOR]
    else if (ALBERT_VERSION_MINOR <? toUInt (captured m 2))%N
         then [error_minor (toUInt (captured m 2)) ALBERT_VERSION_MINOR]
         else [].
Proof. unfold validate_iid. simpl. intros H. rewrite H. reflexivity. Qed.

End InterfaceId.




(** ** Construction *)

Section ConstructionFacts.
Context {platform : Platform}.

(** A module without an interface id is turned away before validation. *)
Lemma ctor_not_a_plugin (locale : QLocale) (provider : N) (p : string)
    (fresh : QPluginLoader) :
  toString (json_at (metaData fresh) "IID") = "" ->
  QtPluginLoader_ctor locale provider p fresh = Thrown "Not an albert plugin".
Proof. unfold QtPluginLoader_ctor. simpl. intros ->. reflexivity. Qed.

(** With an interface id, the outcome is decided by the error list. *)
Lemma ctor_validated (locale : QLocale) (provider : N) (p : string)
    (fresh : QPluginLoader) :
  let the_iid := toString (json_at (metaData fresh) "IID") in
  let md := extract_metadata locale the_iid
              (toObject (json_at (metaData fresh) "MetaData")) in
  the_iid <> "" ->
  (validate md <> [] /\
   QtPluginLoader_ctor locale provider p fresh = Thrown (join ", " (validate md))) \/
  (validate md = [] /\
   exists self, QtPluginLoader_ctor locale provider p fresh = Returned self /\
                metadata_ self = md /\ instance_ self = None /\
                state (base self) = Unloaded).
Proof.
  intros the_iid md Hiid. unfold QtPluginLoader_ctor.
  change (metaData (setLoadHints _ fresh)) with (metaData fresh).
  cbv zeta. fold the_iid. fold md.
  replace (isEmpty the_iid) with false by (destruct the_iid; [contradiction|reflexivity]).
  destruct (decide (validate md = [])) as [Hnil|Hne].
  - right. split; [assumption|]. rewrite bool_decide_eq_true_2 by assumption.
    simpl. eexists. repeat split.
  - left. split; [assumption|]. rewrite bool_decide_eq_false_2 by assumption.
    reflexivity.
Qed.

End ConstructionFacts.




Example ctor_example_plugin :
  exists self,
    QtPluginLoader_ctor (platform := example_platform) example_locale 7
      "/usr/lib/albert/plugin.so" example_plugin = Returned self /\
    name (metadata_ self) = "Rechner" /\
    loadHints (loader self) = [ExportExternalSymbolsHint; PreventUnloadHint].
Proof. eexists. repeat split. Qed.

(** The three entries reach the caller in one message. *)
Example ctor_example_bad_plugin :
  QtPluginLoader_ctor (platform := example_platform) example_locale 7
    "/usr/lib/albert/plugin.so" example_bad_plugin
  = Thrown ("Invalid version scheme. Use '<version>.<patch>'., " ++
            "'name' must not be empty., 'description' must not be empty.").
Proof. reflexivity. Qed.

(** ** Locale resolution *)

(** Reading an entry as text gives a non-empty string exactly when the
    entry is there and holds one. *)
Lemma toString_json_at (json : gmap string QJsonValue) (k : string) :
  match nonempty_entry json k with
  | Some v => toString (json_at json k) = v /\ isEmpty v = false
  | None => isEmpty (toString (json_at json k)) = true
  end.
Proof.
  unfold nonempty_entry, json_at.
  destruct (json !! k) as [[| | | |[|a v]| |]|]; simpl; auto.
Qed.

(** C8. The value resolved for a key is that of key[lang_COUNTRY] when
    that entry is there and not empty, else that of key[lang] when that
    entry is there and not empty, else that of the plain key: the code
    computes the fallback chain of the specification, for every metadata
    object, locale and key. *)
Theorem C8_locale_fallback_chain (locale : QLocale) (json : gmap string QJsonValue)
    (key : string) :
  fetchLocalizedMetadata locale json key = resolve_localized locale json key.
Proof.
  unfold fetchLocalizedMetadata, resolve_localized, localized_key.
  pose proof (toString_json_at json (key ++ "[" ++ locale_name locale ++ "]")) as H1.
  pose proof (toString_json_at json (key ++ "[" ++ locale_languageCode locale ++ "]")) as H2.
  destruct (nonempty_entry json (key ++ "[" ++ locale_name locale ++ "]")) as [v1|].
  - destruct H1 as [-> ->]. reflexivity.
  - rewrite H1. simpl.
    destruct (nonempty_entry json (key ++ "[" ++ locale_languageCode locale ++ "]")) as [v2|].
    + destruct H2 as [-> ->]. reflexivity.
    + rewrite H2. reflexivity.
Qed.

Example fetch_language_entry :
  fetchLocalizedMetadata example_locale example_rawMetadata "name" = "Rechner".
Proof. reflexivity. Qed.

Example fetch_plain_entry :
  fetchLocalizedMetadata example_locale example_rawMetadata "description"
  = "Evaluate math expressions".
Proof. reflexivity. Qed.

Example fetch_territory_entry :
  fetchLocalizedMetadata example_locale
    (<["name[de_AT]" := JString "Rechenmaschine"]> example_rawMetadata) "name"
  = "Rechenmaschine".
Proof. reflexivity. Qed.

Example fetch_empty_territory_entry :
  fetchLocalizedMetadata example_locale
    (<["name[de_AT]" := JString ""]> example_rawMetadata) "name"
  = "Rechner".
Proof. reflexivity. Qed.

(** ** The load type *)

Lemma json_at_insert_ne (json : gmap string QJsonValue) (k k' : string) (v : QJsonValue) :
  k <> k' -> json_at (<[k := v]> json) k' = json_at json k'.
Proof. intros H. unfold json_at. by rewrite lookup_insert_ne. Qed.

Lemma json_at_delete_ne (json : gmap string QJsonValue) (k k' : string) :
  k <> k' -> json_at (delete k json) k' = json_at json k'.
Proof. intros H. unfold json_at. by rewrite lookup_delete_ne. Qed.

(** Two metadata objects that agree away from [loadtype] give the same
    error list. *)
Lemma validate_ignores_loadtype {platform : Platform} (locale : QLocale) (the_iid : string)
    (raw raw' : gmap string QJsonValue) :
  (forall k, k <> "loadtype" -> json_at raw' k = json_at raw k) ->
  validate (extract_metadata locale the_iid raw')
  = validate (extract_metadata locale the_iid raw).
Proof.
  intros H. unfold validate, validate_iid, extract_metadata, fetchLocalizedMetadata,
    localized_key. simpl.
  rewrite !H by discriminate. reflexivity.
Qed.

(** C10. Reading the load type never fails: "frontend" gives Frontend,
    "nounload" gives NoUnload, and anything else gives User, a missing key
    and a value that is not a string included, since both read as the
    empty string.  Whatever the key holds, and whether it is there at all,
    the error list of validation is the same. *)
Theorem C10_load_type_defaults_silently {platform : Platform} (locale : QLocale)
    (the_iid : string) (raw : gmap string QJsonValue) :
  let md := extract_metadata locale the_iid raw in
  let lt := toString (json_at raw "loadtype") in
  (lt = "frontend" /\ load_type md = Frontend \/
   lt = "nounload" /\ load_type md = NoUnload \/
   lt <> "frontend" /\ lt <> "nounload" /\ load_type md = User) /\
  (raw !! "loadtype" = None \/ lt = "" -> load_type md = User) /\
  (forall v, validate (extract_metadata locale the_iid (<["loadtype" := v]> raw))
             = validate md) /\
  validate (extract_metadata locale the_iid (delete "loadtype" raw)) = validate md.
Proof.
  intros md lt. repeat split.
  - unfold md, extract_metadata, parse_load_type. simpl. fold lt.
    destruct (String.eqb_spec lt "frontend") as [E1|E1]; [by left|].
    destruct (String.eqb_spec lt "nounload") as [E2|E2]; [by right; left|].
    by right; right.
  - intros H. assert (E : lt = "").
    { destruct H as [H|H]; [|exact H]. unfold lt, json_at. by rewrite H. }
    unfold md, extract_metadata, parse_load_type. simpl. fold lt. by rewrite E.
  - intros v. apply validate_ignores_loadtype.
    intros k Hk. by apply json_at_insert_ne.
  - apply validate_ignores_loadtype.
    intros k Hk. by apply json_at_delete_ne.
Qed.

Lemma C10_load_type_defaults_silently_witness :
  example_rawMetadata !! "loadtype" = None /\
  load_type (extract_metadata (platform := example_platform) example_locale
               "org.albert.PluginInterface/0.20" example_rawMetadata) = User.
Proof.
  split; [reflexivity|].
  apply (proj1 (proj2 (@C10_load_type_defaults_silently example_platform example_locale
                         "org.albert.PluginInterface/0.20" example_rawMetadata))).
  left. reflexivity.
Defined.

Example load_type_frontend :
  parse_load_type (<["loadtype" := JString "frontend"]> example_rawMetadata) = Frontend.
Proof. reflexivity. Qed.

Example load_type_nounload :
  parse_load_type (<["loadtype" := JString "nounload"]> example_rawMetadata) = NoUnload.
Proof. reflexivity. Qed.

Example load_type_misspelt :
  parse_load_type (<["loadtype" := JString "fronted"]> example_rawMetadata) = User.
Proof. reflexivity. Qed.

Example load_type_uppercase :
  parse_load_type (<["loadtype" := JString "Frontend"]> example_rawMetadata) = User.
Proof. reflexivity. Qed.

Example load_type_missing :
  parse_load_type example_rawMetadata = User.
Proof. reflexivity. Qed.

Example load_type_not_a_string :
  parse_load_type (<["loadtype" := JBool true]> example_rawMetadata) = User.
Proof. reflexivity. Qed.

(** ** Loading, unloading and destruction *)

(** C6. When the dynamic linker resolves an instance, [load] turns on
    whether it is a [PluginInstance]: if it is not, the result is the
    message "Plugin is not of type albert::PluginInstance.", no instance is
    kept and the state of the loader is what it was, so nothing moves to
    Loaded; if it is, the result is the empty string, that is no error, and
    the instance is kept. *)
Theorem C6_load_checks_the_capability {native : NativeModules}
    (self : QtPluginLoader) (trace : list Event) (o : QObject) (l' : QPluginLoader) :
  QPluginLoader_instance (loader self) = (Some o, l') ->
  exists self',
    load self trace =
      (if is_PluginInstance o then "" else "Plugin is not of type albert::PluginInstance.",
       self', (trace ++ [NativeInstance (Some o)])%list) /\
    instance_ self' = (if is_PluginInstance o then Some o else None) /\
    state (base self') = state (base self) /\
    (state (base self) <> Loaded -> state (base self') <> Loaded).
Proof.
  intros H. unfold load. rewrite H. unfold dynamic_cast_PluginInstance.
  destruct (is_PluginInstance o); simpl; eexists; repeat split; auto.
Qed.

Lemma C6_load_checks_the_capability_witness :
  let native := example_native (Some example_plain_object) true "" in
  exists self',
    load (native := native) (example_loader Unloaded None) [] =
      ("Plugin is not of type albert::PluginInstance.", self',
       [NativeInstance (Some example_plain_object)]) /\
    instance_ self' = None /\
    state (base self') = Unloaded /\
    (Unloaded <> Loaded -> state (base self') <> Loaded).
Proof.
  exact (@C6_load_checks_the_capability
           (example_native (Some example_plain_object) true "")
           (example_loader Unloaded None) [] example_plain_object _ eq_refl).
Defined.

(** C2. For a loader in the Loaded state, [unload] first deletes the
    instance it owns, with the native module still untouched, then clears
    the pointer, and only then has the native module released.  If the
    release fails, the result is the error string of the native handle and
    the state is still Loaded; calling [unload] again then asks for the
    release once more and deletes nothing. *)
Theorem C2_unload_order_and_retry {native : NativeModules}
    (self : QtPluginLoader) (trace : list Event) (ok : bool) (l' : QPluginLoader) :
  state (base self) = Loaded ->
  QPluginLoader_unload (loader self) = (ok, l') ->
  let deleted := match instance_ self with Some o => [Deleted o] | None => [] end in
  let trace1 := (trace ++ deleted)%list in
  let self2 := set_instance_ self None in
  let self3 := set_loader self2 l' in
  let trace3 := (trace1 ++ [NativeUnload ok])%list in
  unload_delete self trace = (self, trace1) /\
  unload_clear self trace1 = (self2, trace1) /\
  loader self2 = loader self /\
  unload_release self2 trace1 = (if ok then "" else errorString l', self3, trace3) /\
  unload self trace = (if ok then "" else errorString l', self3, trace3) /\
  instance_ self3 = None /\
  (ok = false ->
     fst (fst (unload self trace)) = errorString l' /\
     state (base self3) = Loaded /\
     forall ok2 l2, QPluginLoader_unload l' = (ok2, l2) ->
       unload self3 trace3 =
         (if ok2 then "" else errorString l2, set_loader self3 l2,
          (trace3 ++ [NativeUnload ok2])%list)).
Proof.
  intros Hstate Hnative deleted trace1 self2 self3 trace3.
  assert (H1 : unload_delete self trace = (self, trace1)).
  { unfold unload_delete, trace1, deleted.
    destruct (instance_ self); [reflexivity|]. by rewrite app_nil_r. }
  assert (H3 : unload_release self2 trace1 = (if ok then "" else errorString l', self3, trace3)).
  { unfold unload_release. simpl. rewrite Hnative. reflexivity. }
  assert (H : unload self trace = (if ok then "" else errorString l', self3, trace3)).
  { unfold unload. rewrite H1. simpl. exact H3. }
  split; [exact H1|]. split; [reflexivity|]. split; [reflexivity|].
  split; [exact H3|]. split; [exact H|]. split; [reflexivity|].
  intros ->. split; [by rewrite H|]. split; [exact Hstate|].
  intros ok2 l2 H2. unfold unload, unload_delete, unload_clear, unload_release.
  simpl. rewrite H2. reflexivity.
Qed.

Lemma C2_unload_order_and_retry_witness :
  let native := example_native (Some example_plugin_object) false "Cannot unload library" in
  let self := example_loader Loaded (Some example_plugin_object) in
  exists self',
    unload (native := native) self [] =
      ("Cannot unload library", self',
       [Deleted example_plugin_object; NativeUnload false]) /\
    instance_ self' = None /\ state (base self') = Loaded.
Proof.
  pose proof (@C2_unload_order_and_retry
                (example_native (Some example_plugin_object) false "Cannot unload library")
                (example_loader Loaded (Some example_plugin_object)) [] false _
                eq_refl eq_refl) as H.
  destruct H as (_ & _ & _ & _ & H & Hi & Hs).
  eexists. split; [exact H|]. split; [exact Hi|]. exact (proj1 (proj2 (Hs eq_refl))).
Defined.

(** C3. The destructor always returns.  When the loader is not Unloaded it
    logs one warning whose last item is the id of the plugin; when the
    loader is Unloaded the trace is left as it was. *)
Theorem C3_destructor_reports (self : QtPluginLoader) (trace : list Event) :
  (state (base self) <> Unloaded /\
   QtPluginLoader_dtor self trace =
     (Returned tt,
      (trace ++ [Logged QtWarningMsg
         ["Logic error: QtPluginLoader destroyed in non Unloaded state:";
          id (metadata_ self)]])%list)) \/
  (state (base self) = Unloaded /\
   QtPluginLoader_dtor self trace = (Returned tt, trace)).
Proof.
  unfold QtPluginLoader_dtor.
  destruct (decide (state (base self) = Unloaded)) as [E|E].
  - right. split; [assumption|]. rewrite bool_decide_eq_false_2; [reflexivity|].
    intros H. contradiction.
  - left. split; [assumption|]. by rewrite bool_decide_eq_true_2.
Qed.

Example destructor_while_loaded :
  QtPluginLoader_dtor (example_loader Loaded (Some example_plugin_object)) []
  = (Returned tt,
     [Logged QtWarningMsg
        ["Logic error: QtPluginLoader destroyed in non Unloaded state:"; "calculator"]]).
Proof. reflexivity. Qed.

Example destructor_while_unloaded :
  QtPluginLoader_dtor (example_loader Unloaded None) [] = (Returned tt, []).
Proof. reflexivity. Qed.

(** ** Editing a trigger *)

Section TriggerFacts.
Import TriggerWidget.
Context {QueryEngine : Type} {ops : QueryEngineOps QueryEngine}.

(** Whatever [setData] is asked, a call of [setTrigger] it makes carries
    the text of the value, and that text is not empty. *)
Lemma setData_setTrigger_nonempty (m : TriggerModel) (idx : QModelIndex)
    (value : QVariant) (role : Z) (r : bool) (m' : TriggerModel)
    (effects : list Effect) (h : QueryHandler) (t : string) :
  setData m idx value role = Some (r, m', effects) ->
  In (Call_setTrigger h t) effects ->
  t = QVariant_toString value /\ t <> "".
Proof.
  unfold setData. intros H Hin.
  destruct (column idx =? column_int Trigger)%Z; [|by simplify_eq].
  destruct (role =? EditRole)%Z.
  - destruct (QVariant_toString value) as [|a s] eqn:E; simpl in H; [by simplify_eq|].
    destruct (entry_at m (row idx)); simplify_eq.
    destruct Hin as [Hin|[Hin|[]]]; simplify_eq. done.
  - destruct (role =? CheckStateRole)%Z; [|by simplify_eq].
    destruct (entry_at m (row idx)); simplify_eq.
    destruct Hin as [Hin|[Hin|[]]]; simplify_eq.
Qed.

End TriggerFacts.

(** C9. An edit of the trigger column with an empty value is turned down,
    whatever the row: [setData] returns false, the model and the engine
    are what they were, so the handler configuration and the table of
    active triggers are unchanged, and nothing was called or emitted.  No
    call of [setData] at all hands an empty trigger to [setTrigger]. *)
Theorem C9_empty_trigger_rejected {QueryEngine : Type}
    {ops : TriggerWidget.QueryEngineOps QueryEngine}
    (m : TriggerWidget.TriggerModel) (idx : TriggerWidget.QModelIndex)
    (value : TriggerWidget.QVariant) :
  TriggerWidget.column idx = TriggerWidget.column_int TriggerWidget.Trigger ->
  TriggerWidget.QVariant_toString value = "" ->
  (exists m',
     TriggerWidget.setData m idx value TriggerWidget.EditRole = Some (false, m', []) /\
     m' = m /\
     TriggerWidget.handlerConfig (TriggerWidget.engine m')
       = TriggerWidget.handlerConfig (TriggerWidget.engine m) /\
     TriggerWidget.activeTriggers (TriggerWidget.engine m')
       = TriggerWidget.activeTriggers (TriggerWidget.engine m)) /\
  (forall idx' value' role r m' effects h t,
     TriggerWidget.setData m idx' value' role = Some (r, m', effects) ->
     In (TriggerWidget.Call_setTrigger h t) effects -> t <> "").
Proof.
  intros Hcol Hval. split.
  - exists m. unfold TriggerWidget.setData. rewrite Hcol, Hval. simpl. auto.
  - intros idx' value' role r m' effects h t H Hin.
    exact (proj2 (setData_setTrigger_nonempty m idx' value' role r m' effects h t H Hin)).
Qed.

Lemma C9_empty_trigger_rejected_witness :
  TriggerWidget.setData (ops := ExampleEngine.ops) ExampleEngine.model0
    {| TriggerWidget.row := 1; TriggerWidget.column := 1 |}
    ExampleEngine.empty_value TriggerWidget.EditRole
  = Some (false, ExampleEngine.model0, []).
Proof.
  destruct (proj1 (@C9_empty_trigger_rejected _ ExampleEngine.ops ExampleEngine.model0
              {| TriggerWidget.row := 1; TriggerWidget.column := 1 |}
              ExampleEngine.empty_value eq_refl eq_refl)) as [m' [H [-> _]]].
  exact H.
Defined.

Example setData_new_trigger :
  TriggerWidget.setData (ops := ExampleEngine.ops) ExampleEngine.model0
    {| TriggerWidget.row := 1; TriggerWidget.column := 1 |}
    (ExampleEngine.text_value "file ") TriggerWidget.EditRole
  = Some (true,
          {| TriggerWidget.query_handlers :=
               [ {| TriggerWidget.handler := ExampleEngine.apps;
                    TriggerWidget.entry_trigger := "app ";
                    TriggerWidget.entry_enabled := true |};
                 {| TriggerWidget.handler := ExampleEngine.files;
                    TriggerWidget.entry_trigger := "file ";
                    TriggerWidget.entry_enabled := true |} ];
             TriggerWidget.engine :=
               [(ExampleEngine.files,
                 {| TriggerWidget.trigger := "file "; TriggerWidget.enabled := true |});
                (ExampleEngine.apps,
                 {| TriggerWidget.trigger := "app "; TriggerWidget.enabled := true |})] |},
          [TriggerWidget.Call_setTrigger ExampleEngine.files "file ";
           TriggerWidget.Emit_dataChanged
             {| TriggerWidget.row := 0; TriggerWidget.column := 1 |}
             {| TriggerWidget.row := 0; TriggerWidget.column := 1 |}
             [TriggerWidget.DisplayRole]]).
Proof. reflexivity. Qed.

(** * Further properties *)

(** ** The order of the rows *)

(** Ids are compared by UTF-16 code unit: U+10000, a surrogate pair that
    starts with 0xD800, comes before U+E000, although its UTF-8 bytes and
    its code point are the greater. *)
Example QString_lt_by_code_unit :
  QString_units (TriggerWidget.handler_id ExampleEngine.supplementary) = [55296%N; 56320%N] /\
  QString_units (TriggerWidget.handler_id ExampleEngine.private_use) = [57344%N] /\
  QString_lt (TriggerWidget.handler_id ExampleEngine.supplementary)
             (TriggerWidget.handler_id ExampleEngine.private_use) = true /\
  String.ltb (TriggerWidget.handler_id ExampleEngine.supplementary)
             (TriggerWidget.handler_id ExampleEngine.private_use) = false.
Proof. vm_compute. auto. Qed.

Example update_orders_by_code_unit :
  map (fun e => TriggerWidget.handler_address (TriggerWidget.handler e))
      (TriggerWidget.query_handlers
         (TriggerWidget.TriggerModel_ctor (ops := ExampleEngine.ops) ExampleEngine.engine3))
  = [500%N; 400%N].
Proof. reflexivity. Qed.

Lemma units_compare_antisym (x y : list N) :
  units_compare x y = CompOpp (units_compare y x).
Proof.
  revert y. induction x as [|a x IH]; intros [|b y]; simpl; try reflexivity.
  rewrite (N.compare_antisym b a). destruct (N.compare b a); simpl; [apply IH|done..].
Qed.

Lemma units_le_trans (x y z : list N) :
  units_compare x y <> Gt -> units_compare y z <> Gt -> units_compare x z <> Gt.
Proof.
  revert y z. induction x as [|a x IH]; intros [|b y] [|c z]; simpl; try done.
  destruct (N.compare_spec a b) as [Eab|Lab|Gab];
  destruct (N.compare_spec b c) as [Ebc|Lbc|Gbc];
  destruct (N.compare_spec a c) as [Eac|Lac|Gac];
    try done; try lia.
  apply IH.
Qed.

Lemma QString_le_trans (a b c : string) :
  QString_le a b = true -> QString_le b c = true -> QString_le a c = true.
Proof.
  unfold QString_le. intros Hab Hbc.
  pose proof (units_le_trans (QString_units a) (QString_units b) (QString_units c)) as H.
  destruct (units_compare (QString_units a) (QString_units b)); try discriminate;
  destruct (units_compare (QString_units b) (QString_units c)); try discriminate;
  destruct (units_compare (QString_units a) (QString_units c)); try reflexivity;
    exfalso; by apply H.
Qed.

Lemma QString_lt_false_le (a b : string) :
  QString_lt b a = false <-> QString_le a b = true.
Proof.
  unfold QString_lt, QString_le.
  rewrite (units_compare_antisym (QString_units a) (QString_units b)).
  destruct (units_compare (QString_units b) (QString_units a)); simpl; split; done.
Qed.

Lemma QString_lt_le (a b : string) :
  QString_lt a b = true -> QString_le a b = true.
Proof.
  unfold QString_lt, QString_le.
  by destruct (units_compare (QString_units a) (QString_units b)).
Qed.

Section RowOrder.
Import TriggerWidget.
Context {QueryEngine : Type} {ops : QueryEngineOps QueryEngine}.

Lemma insert_sorted_perm (e : Entry) (l : list Entry) :
  insert_sorted e l ≡ₚ e :: l.
Proof.
  induction l as [|x l IH]; simpl; [done|].
  destruct (by_id x e); [|done].
  rewrite IH. apply Permutation_swap.
Qed.

Lemma sort_entries_perm (l : list Entry) : sort_entries l ≡ₚ l.
Proof.
  induction l as [|x l IH]; simpl; [done|].
  unfold sort_entries in *. simpl. by rewrite insert_sorted_perm, IH.
Qed.

Lemma insert_sorted_sorted (e : Entry) (l : list Entry) :
  StronglySorted id_le l -> StronglySorted id_le (insert_sorted e l).
Proof.
  induction l as [|x l IH]; intros H; simpl.
  - constructor; constructor.
  - inversion H as [|? ? Hl Hx]; subst.
    destruct (by_id x e) eqn:E.
    + constructor; [by apply IH|].
      rewrite insert_sorted_perm. constructor; [|assumption].
      by apply QString_lt_le.
    + constructor; [assumption|].
      assert (Hex : id_le e x) by (by apply QString_lt_false_le).
      constructor; [assumption|].
      eapply Forall_impl; [exact Hx|]. intros y Hy.
      by eapply QString_le_trans.
Qed.

Lemma sort_entries_sorted (l : list Entry) : StronglySorted id_le (sort_entries l).
Proof.
  induction l as [|x l IH]; simpl; [constructor|].
  by apply insert_sorted_sorted.
Qed.

End RowOrder.

(** X1. After [update] the table holds one row per handler of the engine's
    configuration, each with the trigger and the enabled flag configured
    for it, in ascending order of handler id as [QString] compares ids,
    by UTF-16 code unit; the engine is untouched, and a second [update]
    changes nothing. *)
Theorem update_rows_sorted_by_id {QueryEngine : Type}
    {ops : TriggerWidget.QueryEngineOps QueryEngine}
    (m : TriggerWidget.TriggerModel) :
  let m' := TriggerWidget.update m in
  TriggerWidget.engine m' = TriggerWidget.engine m /\
  TriggerWidget.query_handlers m'
    ≡ₚ rows_of (TriggerWidget.handlerConfig (TriggerWidget.engine m)) /\
  StronglySorted id_le (TriggerWidget.query_handlers m') /\
  TriggerWidget.rowCount m'
    = Z.of_nat (length (TriggerWidget.handlerConfig (TriggerWidget.engine m))) /\
  TriggerWidget.update m' = m'.
Proof.
  simpl. split; [reflexivity|]. split; [apply sort_entries_perm|].
  split; [apply sort_entries_sorted|]. split; [|reflexivity].
  unfold TriggerWidget.rowCount. simpl. f_equal.
  rewrite sort_entries_perm. apply length_map.
Qed.

(** ** What [setData] does to the model *)

Section SetDataFacts.
Import TriggerWidget.
Context {QueryEngine : Type} {ops : QueryEngineOps QueryEngine}.

Lemma entry_at_Some (m : @TriggerModel QueryEngine) (i : Z) :
  is_Some (entry_at m i) <-> (0 <= i < rowCount m)%Z.
Proof.
  unfold entry_at, rowCount. destruct (Z.leb_spec 0 i) as [H|H].
  - rewrite lookup_lt_is_Some. lia.
  - split; [intros [? ?]; discriminate|lia].
Qed.

Lemma entry_at_None (m : @TriggerModel QueryEngine) (i : Z) :
  entry_at m i = None <-> ~ (0 <= i < rowCount m)%Z.
Proof. rewrite <- entry_at_Some, eq_None_not_Some. reflexivity. Qed.

End SetDataFacts.

(** X2. Whenever [setData] returns true it has made exactly one change to
    the engine, [setTrigger] with the text of the value for the edit role
    and [setEnabled] with whether the value is [Qt::Checked] for the check
    state role, on the handler of the row addressed, and has rebuilt the
    table from the engine's new configuration.  Whenever it returns false
    the model and the engine are as before and nothing was called or
    emitted. *)
Theorem setData_outcome {QueryEngine : Type}
    {ops : TriggerWidget.QueryEngineOps QueryEngine}
    (m : TriggerWidget.TriggerModel) (idx : TriggerWidget.QModelIndex)
    (value : TriggerWidget.QVariant) (role : Z) (r : bool)
    (m' : TriggerWidget.TriggerModel) (effects : list TriggerWidget.Effect) :
  TriggerWidget.setData m idx value role = Some (r, m', effects) ->
  (r = true /\
   TriggerWidget.column idx = 1%Z /\
   (exists e,
      TriggerWidget.entry_at m (TriggerWidget.row idx) = Some e /\
      (role = TriggerWidget.EditRole /\
       TriggerWidget.QVariant_toString value <> "" /\
       TriggerWidget.engine m' =
         TriggerWidget.setTrigger (TriggerWidget.engine m) (TriggerWidget.handler e)
           (TriggerWidget.QVariant_toString value)
       \/
       role = TriggerWidget.CheckStateRole /\
       TriggerWidget.engine m' =
         TriggerWidget.setEnabled (TriggerWidget.engine m) (TriggerWidget.handler e)
           (TriggerWidget.QVariant_toUInt value =? TriggerWidget.Checked)%N)) /\
   TriggerWidget.update m' = m') \/
  (r = false /\ m' = m /\ effects = []).
Proof.
  unfold TriggerWidget.setData. intros H.
  destruct (Z.eqb_spec (TriggerWidget.column idx)
              (TriggerWidget.column_int TriggerWidget.Trigger)) as [Hc|Hc];
    [|right; by simplify_eq].
  destruct (Z.eqb_spec role TriggerWidget.EditRole) as [Hr|Hr].
  - destruct (TriggerWidget.QVariant_toString value) as [|a s] eqn:E; simpl in H;
      [right; by simplify_eq|].
    destruct (TriggerWidget.entry_at m (TriggerWidget.row idx)) as [e|] eqn:Ee;
      [|discriminate].
    left. simplify_eq. split; [done|]. split; [done|]. split; [|done].
    exists e. split; [done|]. left. done.
  - destruct (Z.eqb_spec role TriggerWidget.CheckStateRole) as [Hk|Hk];
      [|right; by simplify_eq].
    destruct (TriggerWidget.entry_at m (TriggerWidget.row idx)) as [e|] eqn:Ee;
      [|discriminate].
    left. simplify_eq. split; [done|]. split; [done|]. split; [|done].
    exists e. split; [done|]. right. done.
Qed.

Lemma setData_outcome_witness :
  exists m' effects,
    TriggerWidget.setData (ops := ExampleEngine.ops) ExampleEngine.model0
      {| TriggerWidget.row := 0; TriggerWidget.column := 1 |}
      (ExampleEngine.text_value "a ") TriggerWidget.EditRole = Some (true, m', effects) /\
    TriggerWidget.update (ops := ExampleEngine.ops) m' = m'.
Proof.
  eexists _, _. split; [reflexivity|].
  destruct (@setData_outcome _ ExampleEngine.ops ExampleEngine.model0
              {| TriggerWidget.row := 0; TriggerWidget.column := 1 |}
              (ExampleEngine.text_value "a ") TriggerWidget.EditRole _ _ _ eq_refl)
    as [(_ & _ & _ & H)|(H & _)]; [exact H|discriminate H].
Defined.

(** X3. [setData] runs off the end of the table exactly when it has to
    look up the row and the row is not one of the table: in the trigger
    column, for the check state role or for the edit role with a non-empty
    value, with a row below 0 or not below the row count.  An empty edit,
    another role or another column is answered for any row. *)
Theorem setData_defined_iff_row_in_range {QueryEngine : Type}
    {ops : TriggerWidget.QueryEngineOps QueryEngine}
    (m : TriggerWidget.TriggerModel) (idx : TriggerWidget.QModelIndex)
    (value : TriggerWidget.QVariant) (role : Z) :
  TriggerWidget.setData m idx value role = None <->
  TriggerWidget.column idx = 1%Z /\
  (role = TriggerWidget.EditRole /\ TriggerWidget.QVariant_toString value <> "" \/
   role = TriggerWidget.CheckStateRole) /\
  ~ (0 <= TriggerWidget.row idx < TriggerWidget.rowCount m)%Z.
Proof.
  rewrite <- entry_at_None. unfold TriggerWidget.setData.
  destruct (Z.eqb_spec (TriggerWidget.column idx)
              (TriggerWidget.column_int TriggerWidget.Trigger)) as [Hc|Hc];
    [|split; [discriminate|intros [? _]; contradiction]].
  destruct (Z.eqb_spec role TriggerWidget.EditRole) as [Hr|Hr].
  - destruct (TriggerWidget.QVariant_toString value) as [|a s] eqn:E; simpl.
    + split; [discriminate|]. intros (_ & [[_ H]|H] & _); [done|].
      rewrite Hr in H. discriminate.
    + destruct (TriggerWidget.entry_at m (TriggerWidget.row idx)) as [e|] eqn:Ee.
      * split; [discriminate|]. intros (_ & _ & ?). discriminate.
      * split; [|done]. intros _. split; [done|]. split; [|done]. left. done.
  - destruct (Z.eqb_spec role TriggerWidget.CheckStateRole) as [Hk|Hk].
    + destruct (TriggerWidget.entry_at m (TriggerWidget.row idx)) as [e|] eqn:Ee.
      * split; [discriminate|]. intros (_ & _ & ?). discriminate.
      * split; [|done]. intros _. split; [done|]. split; [|done]. right. done.
    + split; [discriminate|]. intros (_ & [[? _]|?] & _); contradiction.
Qed.



(** X5. Whether a handler allows its trigger to be remapped is only told
    to the view: [flags] leaves [ItemIsEditable] out for a handler that does
    not allow it, but [setData] does not look at it, and an edit with a
    non-empty value that reaches it changes the trigger of such a handler
    like that of any other. *)
Theorem setData_ignores_allow_trigger_remap {QueryEngine : Type}
    {ops : TriggerWidget.QueryEngineOps QueryEngine}
    (m : TriggerWidget.TriggerModel) (idx : TriggerWidget.QModelIndex)
    (value : TriggerWidget.QVariant) (e : TriggerWidget.Entry) :
  TriggerWidget.column idx = 1%Z ->
  TriggerWidget.entry_at m (TriggerWidget.row idx) = Some e ->
  TriggerWidget.QVariant_toString value <> "" ->
  TriggerWidget.allow_trigger_remap (TriggerWidget.handler e) = false ->
  TriggerWidget.flags m idx =
    TriggerWidget.Gives [TriggerWidget.ItemIsEnabled; TriggerWidget.ItemIsSelectable;
                         TriggerWidget.ItemIsUserCheckable] /\
  exists m' effects,
    TriggerWidget.setData m idx value TriggerWidget.EditRole = Some (true, m', effects) /\
    In (TriggerWidget.Call_setTrigger (TriggerWidget.handler e)
          (TriggerWidget.QVariant_toString value)) effects /\
    TriggerWidget.engine m' =
      TriggerWidget.setTrigger (TriggerWidget.engine m) (TriggerWidget.handler e)
        (TriggerWidget.QVariant_toString value).
Proof.
  intros Hc He Hv Ha. split.
  - unfold TriggerWidget.flags. rewrite Hc, He, Ha. reflexivity.
  - unfold TriggerWidget.setData. rewrite Hc, He. simpl.
    destruct (TriggerWidget.QVariant_toString value) as [|a s]; [contradiction|].
    simpl. eexists _, _. split; [reflexivity|]. split; [left; reflexivity|reflexivity].
Qed.

Lemma setData_ignores_allow_trigger_remap_witness :
  exists m' effects,
    TriggerWidget.setData (ops := ExampleEngine.ops) ExampleEngine.model1
      {| TriggerWidget.row := 1; TriggerWidget.column := 1 |}
      (ExampleEngine.text_value "calc ") TriggerWidget.EditRole = Some (true, m', effects) /\
    In (TriggerWidget.Call_setTrigger ExampleEngine.fixed "calc ") effects.
Proof.
  destruct (@setData_ignores_allow_trigger_remap _ ExampleEngine.ops ExampleEngine.model1
              {| TriggerWidget.row := 1; TriggerWidget.column := 1 |}
              (ExampleEngine.text_value "calc ") _ eq_refl eq_refl
              ltac:(discriminate) eq_refl) as [_ (m' & effects & H1 & H2 & _)].
  exists m', effects. split; [exact H1|exact H2].
Defined.

(** ** What [data] shows *)

Section DataFacts.
Import TriggerWidget.
Context {QueryEngine : Type} {ops : QueryEngineOps QueryEngine}.

Lemma replace_space_no_space (s : string) :
  string_existsb (Ascii.eqb " "%char) (replace_space s) = false.
Proof.
  induction s as [|a s IH]; [reflexivity|]. cbn [replace_space].
  destruct (Ascii.eqb a " "%char) eqn:E.
  - change (visible_space ++ replace_space s) with
      (String "225"%char (String "154"%char (String "128"%char (replace_space s)))).
    cbn [string_existsb]. rewrite IH. reflexivity.
  - cbn [string_existsb]. rewrite IH, Ascii.eqb_sym, E. reflexivity.
Qed.

Lemma replace_space_id (s : string) :
  string_existsb (Ascii.eqb " "%char) s = false -> replace_space s = s.
Proof.
  induction s as [|a s IH]; [reflexivity|]. cbn [replace_space string_existsb].
  rewrite Ascii.eqb_sym. intros H. apply orb_false_iff in H as [Ha Hs].
  rewrite Ha, IH; done.
Qed.

Lemma fields_not_nil (s : string) : fields s <> [].
Proof.
  destruct s as [|a s]; [discriminate|]. cbn [fields].
  destruct (Ascii.eqb a " "%char); [discriminate|]. by destruct (fields s).
Qed.

(** The replacement, said with the pieces between the spaces. *)
Lemma replace_space_fields (s : string) :
  replace_space s = join visible_space (fields s).
Proof.
  unfold join. induction s as [|a s IH]; [reflexivity|].
  cbn [replace_space fields]. pose proof (fields_not_nil s) as Hne.
  destruct (Ascii.eqb a " "%char).
  - rewrite IH. destruct (fields s) as [|f fs]; [contradiction|]. reflexivity.
  - rewrite IH. destruct (fields s) as [|f [|f' fs]]; [contradiction|reflexivity..].
Qed.

Lemma reserved_by_cases (m : @TriggerModel QueryEngine) (e : Entry) :
  (exists o, reserved_by m e = Gives o) \/ reserved_by m e = ThrowsOutOfRange.
Proof.
  unfold reserved_by. destruct (entry_enabled e); [|by left; eexists].
  destruct (_ !! _); [|by right].
  destruct (_ =? _)%N; left; by eexists.
Qed.

End DataFacts.

(** X6. In the trigger column a row is drawn in red exactly when it is
    enabled and the table of active triggers gives its trigger to a handler
    at another address; the tool tip of such a row ends with the conflict
    line naming the trigger and that handler, after the remapping notice
    when the row's handler does not allow remapping. *)
Theorem data_marks_conflicts {QueryEngine : Type}
    {ops : TriggerWidget.QueryEngineOps QueryEngine}
    (m : TriggerWidget.TriggerModel) (idx : TriggerWidget.QModelIndex)
    (e : TriggerWidget.Entry) :
  TriggerWidget.column idx = 1%Z ->
  TriggerWidget.entry_at m (TriggerWidget.row idx) = Some e ->
  (TriggerWidget.data m idx TriggerWidget.ForegroundRole
     = TriggerWidget.Gives TriggerWidget.RedColor <->
   TriggerWidget.entry_enabled e = true /\
   exists h,
     TriggerWidget.activeTriggers (TriggerWidget.engine m)
       !! TriggerWidget.entry_trigger e = Some h /\
     TriggerWidget.handler_address h
       <> TriggerWidget.handler_address (TriggerWidget.handler e)) /\
  (forall h,
     TriggerWidget.entry_enabled e = true ->
     TriggerWidget.activeTriggers (TriggerWidget.engine m)
       !! TriggerWidget.entry_trigger e = Some h ->
     TriggerWidget.handler_address h
       <> TriggerWidget.handler_address (TriggerWidget.handler e) ->
     TriggerWidget.data m idx TriggerWidget.ToolTipRole =
       TriggerWidget.Gives (TriggerWidget.TextValue
         (if TriggerWidget.allow_trigger_remap (TriggerWidget.handler e)
          then TriggerWidget.conflict_notice (TriggerWidget.entry_trigger e)
                 (TriggerWidget.handler_name h)
          else TriggerWidget.remap_notice ++ " " ++
               TriggerWidget.conflict_notice (TriggerWidget.entry_trigger e)
                 (TriggerWidget.handler_name h)))).
Proof.
  intros Hc He. unfold TriggerWidget.data, TriggerWidget.reserved_by.
  rewrite Hc, He. simpl. split.
  - destruct (TriggerWidget.entry_enabled e).
    + destruct (TriggerWidget.activeTriggers (TriggerWidget.engine m)
                  !! TriggerWidget.entry_trigger e) as [h|].
      * destruct (N.eqb_spec (TriggerWidget.handler_address h)
                    (TriggerWidget.handler_address (TriggerWidget.handler e))) as [Ea|Ea].
        -- split; [discriminate|]. intros (_ & h' & [= <-] & Hne). contradiction.
        -- split; [|done]. intros _. split; [done|]. by exists h.
      * split; [discriminate|]. intros (_ & h' & ? & _). discriminate.
    + split; [discriminate|]. intros [? _]. discriminate.
  - intros h Hen Hh Hne. rewrite Hen, Hh.
    replace (TriggerWidget.handler_address h
             =? TriggerWidget.handler_address (TriggerWidget.handler e))%N with false
      by (symmetry; by apply N.eqb_neq).
    destruct (TriggerWidget.allow_trigger_remap (TriggerWidget.handler e)); reflexivity.
Qed.

Lemma data_marks_conflicts_witness :
  TriggerWidget.data (ops := ExampleEngine.ops) ExampleEngine.model1
    {| TriggerWidget.row := 0; TriggerWidget.column := 1 |} TriggerWidget.ForegroundRole
  = TriggerWidget.Gives TriggerWidget.RedColor.
Proof.
  apply (proj1 (@data_marks_conflicts _ ExampleEngine.ops ExampleEngine.model1
                  {| TriggerWidget.row := 0; TriggerWidget.column := 1 |} _
                  eq_refl eq_refl)).
  split; [reflexivity|]. exists ExampleEngine.files. split; [reflexivity|discriminate].
Defined.

(** X7. [data] ends in [std::out_of_range] exactly when it is asked the
    tool tip or the foreground of a row of the trigger column that is
    enabled and whose trigger is not a key of the table of active triggers.
    A disabled row never asks the table, and no other role or column
    does. *)
Theorem data_throws_iff_enabled_trigger_inactive {QueryEngine : Type}
    {ops : TriggerWidget.QueryEngineOps QueryEngine}
    (m : TriggerWidget.TriggerModel) (idx : TriggerWidget.QModelIndex) (role : Z) :
  TriggerWidget.data m idx role = TriggerWidget.ThrowsOutOfRange <->
  TriggerWidget.column idx = 1%Z /\
  (role = TriggerWidget.ToolTipRole \/ role = TriggerWidget.ForegroundRole) /\
  exists e,
    TriggerWidget.entry_at m (TriggerWidget.row idx) = Some e /\
    TriggerWidget.entry_enabled e = true /\
    TriggerWidget.activeTriggers (TriggerWidget.engine m)
      !! TriggerWidget.entry_trigger e = None.
Proof.
  unfold TriggerWidget.data, TriggerWidget.reserved_by.
  destruct (Z.eqb_spec (TriggerWidget.column idx)
              (TriggerWidget.column_int TriggerWidget.Name)) as [H0|H0].
  { split; [|intros [H1 _]; rewrite H1 in H0; discriminate].
    destruct (role =? _)%Z; [|discriminate].
    destruct (TriggerWidget.entry_at _ _); discriminate. }
  destruct (Z.eqb_spec (TriggerWidget.column idx)
              (TriggerWidget.column_int TriggerWidget.Description)) as [H2|H2].
  { split; [|intros [H1 _]; rewrite H1 in H2; discriminate].
    destruct (role =? _)%Z; [|discriminate].
    destruct (TriggerWidget.entry_at _ _); discriminate. }
  destruct (Z.eqb_spec (TriggerWidget.column idx)
              (TriggerWidget.column_int TriggerWidget.Trigger)) as [H1|H1];
    [|split; [discriminate|intros [? _]; contradiction]].
  destruct (TriggerWidget.entry_at m (TriggerWidget.row idx)) as [e|] eqn:He;
    [|split; [discriminate|intros (_ & _ & e & ? & _); discriminate]].
  destruct (Z.eqb_spec role TriggerWidget.DisplayRole) as [R0|R0];
    [split; [discriminate|intros (_ & [?|?] & _); subst; discriminate]|].
  destruct (Z.eqb_spec role TriggerWidget.EditRole) as [R1|R1];
    [split; [discriminate|intros (_ & [?|?] & _); subst; discriminate]|].
  destruct (Z.eqb_spec role TriggerWidget.ToolTipRole) as [R2|R2].
  { destruct (TriggerWidget.entry_enabled e) eqn:Hen.
    - destruct (TriggerWidget.activeTriggers (TriggerWidget.engine m)
                  !! TriggerWidget.entry_trigger e) as [h|] eqn:Hl.
      + split; [|intros (_ & _ & e' & [= <-] & _ & ?); congruence].
        destruct (_ =? _)%N; simpl;
          destruct (TriggerWidget.allow_trigger_remap _); discriminate.
      + split; [|done]. intros _. split; [done|]. split; [by left|]. by exists e.
    - split; [|intros (_ & _ & e' & [= <-] & ? & _); congruence].
      simpl. destruct (TriggerWidget.allow_trigger_remap _); discriminate. }
  destruct (Z.eqb_spec role TriggerWidget.CheckStateRole) as [R3|R3];
    [split; [discriminate|intros (_ & [?|?] & _); subst; discriminate]|].
  destruct (Z.eqb_spec role TriggerWidget.FontRole) as [R4|R4].
  { split; [|intros (_ & [?|?] & _); subst; discriminate].
    destruct (TriggerWidget.allow_trigger_remap _); discriminate. }
  destruct (Z.eqb_spec role TriggerWidget.ForegroundRole) as [R5|R5];
    [|split; [discriminate|intros (_ & [?|?] & _); contradiction]].
  destruct (TriggerWidget.entry_enabled e) eqn:Hen.
  - destruct (TriggerWidget.activeTriggers (TriggerWidget.engine m)
                !! TriggerWidget.entry_trigger e) as [h|] eqn:Hl.
    + split; [|intros (_ & _ & e' & [= <-] & _ & ?); congruence].
      destruct (_ =? _)%N; discriminate.
    + split; [|done]. intros _. split; [done|]. split; [by right|]. by exists e.
  - split; [discriminate|]. intros (_ & _ & e' & [= <-] & ? & _); congruence.
Qed.

(** X8. The text shown for a trigger is the trigger with every space
    replaced by the mark U+1680 and nothing else changed: it is the pieces
    of the trigger between its spaces, joined by the three bytes of U+1680.
    So it holds no plain space, and a trigger without spaces is shown as it
    is.  The text handed to the editor is the trigger itself. *)
Theorem data_trigger_text {QueryEngine : Type}
    {ops : TriggerWidget.QueryEngineOps QueryEngine}
    (m : TriggerWidget.TriggerModel) (idx : TriggerWidget.QModelIndex)
    (e : TriggerWidget.Entry) :
  TriggerWidget.column idx = 1%Z ->
  TriggerWidget.entry_at m (TriggerWidget.row idx) = Some e ->
  let mark := String "225"%char (String "154"%char (String "128"%char "")) in
  let shown := join mark (fields (TriggerWidget.entry_trigger e)) in
  utf8_code_points mark = [5760%N] /\
  TriggerWidget.data m idx TriggerWidget.DisplayRole
    = TriggerWidget.Gives (TriggerWidget.TextValue shown) /\
  string_existsb (Ascii.eqb " "%char) shown = false /\
  (string_existsb (Ascii.eqb " "%char) (TriggerWidget.entry_trigger e) = false ->
   shown = TriggerWidget.entry_trigger e) /\
  TriggerWidget.data m idx TriggerWidget.EditRole
    = TriggerWidget.Gives (TriggerWidget.TextValue (TriggerWidget.entry_trigger e)).
Proof.
  intros Hc He mark shown.
  assert (Hs : shown = TriggerWidget.replace_space (TriggerWidget.entry_trigger e))
    by (symmetry; apply replace_space_fields).
  split; [reflexivity|].
  unfold TriggerWidget.data. rewrite Hc, He. simpl.
  split; [by rewrite Hs|]. rewrite Hs.
  split; [apply replace_space_no_space|].
  split; [apply replace_space_id|reflexivity].
Qed.

Lemma data_trigger_text_witness :
  TriggerWidget.data (ops := ExampleEngine.ops) ExampleEngine.model0
    {| TriggerWidget.row := 0; TriggerWidget.column := 1 |} TriggerWidget.DisplayRole
  = TriggerWidget.Gives
      (TriggerWidget.TextValue
         (String "a" (String "p" (String "p"
            (String "225" (String "154" (String "128" ""))))))).
Proof.
  destruct (@data_trigger_text _ ExampleEngine.ops ExampleEngine.model0
              {| TriggerWidget.row := 0; TriggerWidget.column := 1 |} _ eq_refl eq_refl)
    as (_ & H & _).
  exact H.
Defined.

(** X9. [data] indexes the table outside its bounds exactly when the row is
    not one of the table and the cell is looked up: for any role in the
    trigger column, and for the display role in the other two columns.  A
    column beyond the third is answered with no value for any row. *)
Theorem data_undefined_iff_row_out_of_range {QueryEngine : Type}
    {ops : TriggerWidget.QueryEngineOps QueryEngine}
    (m : TriggerWidget.TriggerModel) (idx : TriggerWidget.QModelIndex) (role : Z) :
  TriggerWidget.data m idx role = TriggerWidget.Undefined <->
  ~ (0 <= TriggerWidget.row idx < TriggerWidget.rowCount m)%Z /\
  (TriggerWidget.column idx = 1%Z \/
   (TriggerWidget.column idx = 0%Z \/ TriggerWidget.column idx = 2%Z) /\
   role = TriggerWidget.DisplayRole).
Proof.
  rewrite <- entry_at_None. unfold TriggerWidget.data.
  destruct (Z.eqb_spec (TriggerWidget.column idx)
              (TriggerWidget.column_int TriggerWidget.Name)) as [H0|H0].
  { change (TriggerWidget.column_int TriggerWidget.Name) with 0%Z in H0.
    destruct (Z.eqb_spec role TriggerWidget.DisplayRole) as [R|R].
    - destruct (TriggerWidget.entry_at m (TriggerWidget.row idx)) eqn:He.
      + split; [discriminate|]. intros [? _]. discriminate.
      + split; [|done]. intros _. split; [done|]. right. split; [by left|done].
    - split; [discriminate|]. intros [_ [?|[_ ?]]]; [lia|contradiction]. }
  destruct (Z.eqb_spec (TriggerWidget.column idx)
              (TriggerWidget.column_int TriggerWidget.Description)) as [H2|H2].
  { change (TriggerWidget.column_int TriggerWidget.Description) with 2%Z in H2.
    destruct (Z.eqb_spec role TriggerWidget.DisplayRole) as [R|R].
    - destruct (TriggerWidget.entry_at m (TriggerWidget.row idx)) eqn:He.
      + split; [discriminate|]. intros [? _]. discriminate.
      + split; [|done]. intros _. split; [done|]. right. split; [by right|done].
    - split; [discriminate|]. intros [_ [?|[_ ?]]]; [lia|contradiction]. }
  change (TriggerWidget.column_int TriggerWidget.Name) with 0%Z in H0.
  change (TriggerWidget.column_int TriggerWidget.Description) with 2%Z in H2.
  destruct (Z.eqb_spec (TriggerWidget.column idx)
              (TriggerWidget.column_int TriggerWidget.Trigger)) as [H1|H1].
  - destruct (TriggerWidget.entry_at m (TriggerWidget.row idx)) as [e|] eqn:He.
    + split; [|intros [? _]; discriminate].
      destruct (role =? TriggerWidget.DisplayRole)%Z; [discriminate|].
      destruct (role =? TriggerWidget.EditRole)%Z; [discriminate|].
      destruct (role =? TriggerWidget.ToolTipRole)%Z.
      { destruct (reserved_by_cases m e) as [[o ->]| ->]; [|discriminate].
        destruct (negb _); discriminate. }
      destruct (role =? TriggerWidget.CheckStateRole)%Z; [discriminate|].
      destruct (role =? TriggerWidget.FontRole)%Z;
        [destruct (negb _); discriminate|].
      destruct (role =? TriggerWidget.ForegroundRole)%Z; [|discriminate].
      destruct (reserved_by_cases m e) as [[[h|] ->]| ->]; discriminate.
    + split; [|done]. intros _. split; [done|]. by left.
  - change (TriggerWidget.column_int TriggerWidget.Trigger) with 1%Z in H1.
    split; [discriminate|]. intros [_ [?|[[?|?] _]]]; contradiction.
Qed.

(** X10. Writing back what was read changes nothing in the configuration
    asked for: the check state read from a row, written to it, asks the
    engine to set the handler's enabled flag to what the row has; the
    trigger read for editing, written back, asks it to set the handler's
    trigger to what the row has, unless that trigger is empty, in which
    case the write is turned down. *)
Theorem data_setData_round_trip {QueryEngine : Type}
    {ops : TriggerWidget.QueryEngineOps QueryEngine}
    (m : TriggerWidget.TriggerModel) (idx : TriggerWidget.QModelIndex)
    (e : TriggerWidget.Entry) :
  TriggerWidget.column idx = 1%Z ->
  TriggerWidget.entry_at m (TriggerWidget.row idx) = Some e ->
  (exists c,
     TriggerWidget.data m idx TriggerWidget.CheckStateRole
       = TriggerWidget.Gives (TriggerWidget.CheckValue c) /\
     forall value, TriggerWidget.QVariant_toUInt value = c ->
       exists m' effects,
         TriggerWidget.setData m idx value TriggerWidget.CheckStateRole
           = Some (true, m', effects) /\
         TriggerWidget.engine m' =
           TriggerWidget.setEnabled (TriggerWidget.engine m) (TriggerWidget.handler e)
             (TriggerWidget.entry_enabled e)) /\
  (exists t,
     TriggerWidget.data m idx TriggerWidget.EditRole
       = TriggerWidget.Gives (TriggerWidget.TextValue t) /\
     forall value, TriggerWidget.QVariant_toString value = t ->
       (t = "" /\
        TriggerWidget.setData m idx value TriggerWidget.EditRole = Some (false, m, [])) \/
       (t <> "" /\
        exists m' effects,
          TriggerWidget.setData m idx value TriggerWidget.EditRole
            = Some (true, m', effects) /\
          TriggerWidget.engine m' =
            TriggerWidget.setTrigger (TriggerWidget.engine m) (TriggerWidget.handler e)
              (TriggerWidget.entry_trigger e))).
Proof.
  intros Hc He. split.
  - exists (if TriggerWidget.entry_enabled e
            then TriggerWidget.Checked else TriggerWidget.Unchecked).
    unfold TriggerWidget.data, TriggerWidget.setData. rewrite Hc, He. simpl.
    split; [reflexivity|]. intros value ->. eexists _, _. split; [reflexivity|].
    simpl. by destruct (TriggerWidget.entry_enabled e).
  - exists (TriggerWidget.entry_trigger e).
    unfold TriggerWidget.data, TriggerWidget.setData. rewrite Hc, He. simpl.
    split; [reflexivity|]. intros value ->.
    destruct (TriggerWidget.entry_trigger e) as [|a s] eqn:Et; simpl.
    + left. done.
    + right. split; [done|]. eexists _, _. split; reflexivity.
Qed.

Lemma data_setData_round_trip_witness :
  exists m' effects,
    TriggerWidget.setData (ops := ExampleEngine.ops) ExampleEngine.model0
      {| TriggerWidget.row := 0; TriggerWidget.column := 1 |}
      (ExampleEngine.text_value "app ") TriggerWidget.EditRole = Some (true, m', effects) /\
    TriggerWidget.engine m' = ExampleEngine.engine0.
Proof.
  destruct (@data_setData_round_trip _ ExampleEngine.ops ExampleEngine.model0
              {| TriggerWidget.row := 0; TriggerWidget.column := 1 |} _ eq_refl eq_refl)
    as [_ (t & Ht & H)].
  injection Ht as <-.
  destruct (H (ExampleEngine.text_value "app ") eq_refl)
    as [[E _]|(_ & m' & effects & H1 & H2)]; [discriminate E|].
  exists m', effects. split; [exact H1|exact H2].
Defined.

(** ** Loading and unloading, composed *)

(** X11. Provided the error string of the handle is not empty after the
    call (Qt puts "Unknown error" in place of an empty one), [load] returns
    the empty string exactly when the dynamic linker resolved an object
    that is a [PluginInstance], and then that object is what [instance()]
    yields.  When nothing was resolved the result is the error string of
    the handle as the call left it, and the instance held before is kept.
    In every case the only thing [load] does to the outside is the one call
    of [QPluginLoader::instance()]: nothing is deleted. *)
Theorem load_succeeds_iff_instance_held {native : NativeModules}
    (self : QtPluginLoader) (trace : list Event) (o : option QObject) (l' : QPluginLoader) :
  QPluginLoader_instance (loader self) = (o, l') ->
  errorString l' <> "" ->
  exists r self',
    load self trace = (r, self', (trace ++ [NativeInstance o])%list) /\
    loader self' = l' /\
    (r = "" <->
     exists q, o = Some q /\ is_PluginInstance q = true /\ instance self' = Some q) /\
    (o = None -> r = errorString l' /\ instance self' = instance self).
Proof.
  intros H Herr. unfold load. rewrite H. destruct o as [q|].
  - unfold dynamic_cast_PluginInstance. destruct (is_PluginInstance q) eqn:Eq; simpl.
    + eexists _, _. split; [reflexivity|]. split; [reflexivity|]. split; [|discriminate].
      split; [|done]. intros _. by exists q.
    + eexists _, _. split; [reflexivity|]. split; [reflexivity|]. split; [|discriminate].
      split; [discriminate|]. intros (q' & [= <-] & Hq & _). congruence.
  - simpl. eexists _, _. split; [reflexivity|]. split; [reflexivity|]. split; [|done].
    split; [intros E; by rewrite E in Herr|]. intros (q & ? & _). discriminate.
Qed.

Lemma load_succeeds_iff_instance_held_witness :
  exists self',
    load (native := example_native None true "Cannot load library")
      (example_loader Unloaded None) []
    = ("Cannot load library", self', [NativeInstance None]) /\
    instance self' = None.
Proof.
  destruct (@load_succeeds_iff_instance_held
              (example_native None true "Cannot load library")
              (example_loader Unloaded None) [] None _ eq_refl ltac:(discriminate))
    as (r & self' & H & _ & _ & Hnone).
  destruct (Hnone eq_refl) as [Hr Hi]. rewrite Hr in H.
  exists self'. split; [exact H|exact Hi].
Defined.

(** X12. [load] followed by [unload]: when the object resolved is a
    [PluginInstance], the object that [unload] deletes is that very object,
    it is deleted before the release of the native module is asked for, the
    release is asked of the handle as [instance()] left it, and the loader
    ends up holding no instance. *)
Theorem load_then_unload {native : NativeModules}
    (self : QtPluginLoader) (trace : list Event) (o : QObject)
    (l1 l2 : QPluginLoader) (ok : bool) :
  QPluginLoader_instance (loader self) = (Some o, l1) ->
  is_PluginInstance o = true ->
  QPluginLoader_unload l1 = (ok, l2) ->
  exists self1 trace1 self2,
    load self trace = ("", self1, trace1) /\
    unload self1 trace1 =
      (if ok then "" else errorString l2, self2,
       (trace ++ [NativeInstance (Some o); Deleted o; NativeUnload ok])%list) /\
    instance self2 = None /\
    loader self2 = l2 /\
    metadata_ self2 = metadata_ self /\
    state (base self2) = state (base self).
Proof.
  intros Hi Ho Hu. unfold load. rewrite Hi. unfold dynamic_cast_PluginInstance.
  rewrite Ho. simpl. eexists _, _, _. split; [reflexivity|].
  unfold unload, unload_delete, unload_clear, unload_release. simpl. rewrite Hu.
  simpl. rewrite <- !app_assoc. simpl. repeat split.
Qed.

Lemma load_then_unload_witness :
  exists self1 trace1 self2,
    load (native := example_native (Some example_plugin_object) true "")
      (example_loader Unloaded None) [] = ("", self1, trace1) /\
    unload (native := example_native (Some example_plugin_object) true "") self1 trace1
    = ("", self2,
       [NativeInstance (Some example_plugin_object); Deleted example_plugin_object;
        NativeUnload true]).
Proof.
  destruct (@load_then_unload (example_native (Some example_plugin_object) true "")
              (example_loader Unloaded None) [] example_plugin_object _ _ true
              eq_refl eq_refl eq_refl)
    as (self1 & trace1 & self2 & H1 & H2 & _).
  exists self1, trace1, self2. split; [exact H1|exact H2].
Defined.

(** X13. Two calls of [unload] in a row, in any state and whatever the
    dynamic linker answers: the instance held, if any, is deleted once, by
    the first call; the second call deletes nothing and only asks for the
    release again. *)
Theorem unload_twice_deletes_once {native : NativeModules}
    (self : QtPluginLoader) (trace : list Event)
    (ok1 ok2 : bool) (l1 l2 : QPluginLoader) :
  QPluginLoader_unload (loader self) = (ok1, l1) ->
  QPluginLoader_unload l1 = (ok2, l2) ->
  exists r1 self1 trace1 self2,
    unload self trace = (r1, self1, trace1) /\
    unload self1 trace1 =
      (if ok2 then "" else errorString l2, self2,
       (trace
        ++ match instance_ self with Some o => [Deleted o] | None => [] end
        ++ [NativeUnload ok1; NativeUnload ok2])%list) /\
    instance self1 = None /\ instance self2 = None.
Proof.
  intros H1 H2.
  assert (E1 : unload self trace =
            (if ok1 then "" else errorString l1,
             set_loader (set_instance_ self None) l1,
             (trace ++ match instance_ self with Some o => [Deleted o] | None => [] end
                    ++ [NativeUnload ok1])%list)).
  { unfold unload, unload_delete, unload_clear, unload_release.
    destruct (instance_ self) as [o|]; simpl; rewrite H1; simpl;
      rewrite <- ?app_assoc; reflexivity. }
  eexists _, _, _, _. split; [exact E1|]. split.
  - unfold unload, unload_delete, unload_clear, unload_release. simpl. rewrite H2. simpl.
    rewrite <- !app_assoc. reflexivity.
  - split; reflexivity.
Qed.

Lemma unload_twice_deletes_once_witness :
  exists r1 self1 trace1 self2,
    unload (native := example_native None false "Cannot unload library")
      (example_loader Loaded (Some example_plugin_object)) [] = (r1, self1, trace1) /\
    unload (native := example_native None false "Cannot unload library") self1 trace1
    = ("Cannot unload library", self2,
       [Deleted example_plugin_object; NativeUnload false; NativeUnload false]).
Proof.
  destruct (@unload_twice_deletes_once
              (example_native None false "Cannot unload library")
              (example_loader Loaded (Some example_plugin_object)) [] false false _ _
              eq_refl eq_refl)
    as (r1 & self1 & trace1 & self2 & H1 & H2 & _).
  exists r1, self1, trace1, self2. split; [exact H1|exact H2].
Defined.

(** ** Validation as a whole *)

Section ValidationWhole.
Context {platform : Platform}.

Lemma validate_iid_nil_iff (md : PluginMetaData) :
  validate_iid [] md = [] <->
  let m := QRegularExpression_match regex_iid (iid md) in
  hasMatch m = true /\
  toUInt (captured m 1) = ALBERT_VERSION_MAJOR /\
  (toUInt (captured m 2) <= ALBERT_VERSION_MINOR)%N.
Proof.
  cbv zeta.
  destruct (hasMatch (QRegularExpression_match regex_iid (iid md))) eqn:Hm.
  - rewrite (validate_iid_match md Hm).
    destruct (N.eqb_spec (toUInt (captured (QRegularExpression_match regex_iid (iid md)) 1))
                ALBERT_VERSION_MAJOR) as [E|E]; simpl.
    + destruct (N.ltb_spec ALBERT_VERSION_MINOR
                  (toUInt (captured (QRegularExpression_match regex_iid (iid md)) 2)))
        as [L|L].
      * split; [discriminate|]. intros (_ & _ & ?). lia.
      * split; [|done]. intros _. split; [done|]. split; [done|lia].
    + split; [discriminate|]. intros (_ & ? & _). contradiction.
  - rewrite (validate_iid_no_match md Hm). split; [discriminate|].
    intros [? _]. discriminate.
Qed.

Lemma validate_nil_iff (md : PluginMetaData) :
  validate md = [] <->
  validate_iid [] md = [] /\
  hasMatch (QRegularExpression_match regex_version (version md)) = true /\
  string_existsb (in_class id_class) (id md) = true /\
  name md <> "" /\ description md <> "".
Proof.
  rewrite validate_parts, <- regex_id_hasMatch.
  destruct (validate_iid [] md) as [|x l]; simpl;
    [|split; [discriminate|intros [? _]; discriminate]].
  destruct (hasMatch (QRegularExpression_match regex_version (version md)));
  destruct (hasMatch (QRegularExpression_match regex_id (id md)));
  destruct (name md); destruct (description md); simpl;
    split; try discriminate; try (intros (_ & ? & ? & ? & ?); congruence);
    intros _; repeat split; discriminate.
Qed.

End ValidationWhole.

(** X14. Construction returns a loader exactly when the file declares an
    interface id and every rule holds: the id matches the interface
    pattern with the major number of the application and a minor number
    not above it, the version matches the version pattern, the plugin id
    has a character of the id class, and name and description resolve to
    non-empty text.  The loader returned holds no instance, carries the
    extracted metadata, and has both load hints set on its handle. *)
Theorem ctor_returns_iff_all_rules_hold {platform : Platform}
    (locale : QLocale) (provider : N) (p : string) (fresh : QPluginLoader) :
  let the_iid := toString (json_at (metaData fresh) "IID") in
  let raw := toObject (json_at (metaData fresh) "MetaData") in
  let m := QRegularExpression_match regex_iid the_iid in
  ((exists self, QtPluginLoader_ctor locale provider p fresh = Returned self) <->
   the_iid <> "" /\
   hasMatch m = true /\
   toUInt (captured m 1) = ALBERT_VERSION_MAJOR /\
   (toUInt (captured m 2) <= ALBERT_VERSION_MINOR)%N /\
   hasMatch (QRegularExpression_match regex_version (toString (json_at raw "version"))) = true /\
   string_existsb (in_class id_class) (toString (json_at raw "id")) = true /\
   fetchLocalizedMetadata locale raw "name" <> "" /\
   fetchLocalizedMetadata locale raw "description" <> "") /\
  (forall self, QtPluginLoader_ctor locale provider p fresh = Returned self ->
     instance self = None /\
     QtPluginLoader_metaData self = extract_metadata locale the_iid raw /\
     loadHints (loader self) = [ExportExternalSymbolsHint; PreventUnloadHint] /\
     metaData (loader self) = metaData fresh /\
     provider_ self = provider).
Proof.
  intros the_iid raw m.
  destruct (decide (the_iid = "")) as [Hi|Hi].
  - rewrite (ctor_not_a_plugin locale provider p fresh Hi). split.
    + split; [intros [self ?]; discriminate|]. intros [? _]. contradiction.
    + intros self ?. discriminate.
  - pose proof (validate_nil_iff (extract_metadata locale the_iid raw)) as Hv.
    rewrite validate_iid_nil_iff in Hv. cbv zeta in Hv.
    change (iid (extract_metadata locale the_iid raw)) with the_iid in Hv.
    change (version (extract_metadata locale the_iid raw))
      with (toString (json_at raw "version")) in Hv.
    change (id (extract_metadata locale the_iid raw))
      with (toString (json_at raw "id")) in Hv.
    change (name (extract_metadata locale the_iid raw))
      with (fetchLocalizedMetadata locale raw "name") in Hv.
    change (description (extract_metadata locale the_iid raw))
      with (fetchLocalizedMetadata locale raw "description") in Hv.
    destruct (ctor_validated locale provider p fresh Hi)
      as [[Hne Ht]|[Hnil (self & Hr & Hmd & Hin & _)]].
    + rewrite Ht. split.
      * split; [intros [self ?]; discriminate|].
        intros (_ & H1 & H2 & H3 & H4). exfalso. apply Hne, Hv. tauto.
      * intros self ?. discriminate.
    + rewrite Hr. split.
      * split; [|intros _; by exists self]. intros _.
        split; [assumption|]. apply Hv in Hnil. tauto.
      * intros self' [= <-]. split; [exact Hin|]. split; [exact Hmd|].
        unfold QtPluginLoader_ctor in Hr.
        change (metaData (setLoadHints _ fresh)) with (metaData fresh) in Hr.
        cbv zeta in Hr.
        replace (isEmpty (toString (json_at (metaData fresh) "IID"))) with false in Hr
          by (fold the_iid; destruct the_iid; [contradiction|reflexivity]).
        rewrite bool_decide_eq_true_2 in Hr by exact Hnil.
        simpl in Hr. injection Hr as <-. done.
Qed.

(** X15. The error list never names a rule twice and never has more than
    five entries: it is a selection, in the order of the checks, from one
    entry about the interface id, the version entry, the id entry, the name
    entry and the description entry. *)
Theorem validate_selects_in_order {platform : Platform} (md : PluginMetaData) :
  exists e,
    (is_iid_pattern_error e = true \/ is_major_error e = true \/ is_minor_error e = true) /\
    validate md `sublist_of`
      [e; error_version; error_id; error_name; error_description] /\
    NoDup (validate md) /\
    length (validate md) <= 5.
Proof.
  assert (Hiid : exists e,
            (is_iid_pattern_error e = true \/ is_major_error e = true
             \/ is_minor_error e = true) /\
            (validate_iid [] md = [] \/ validate_iid [] md = [e])).
  { destruct (hasMatch (QRegularExpression_match regex_iid (iid md))) eqn:Hm.
    - rewrite (validate_iid_match md Hm).
      destruct (negb _).
      + eexists. split; [|right; reflexivity]. right. left. reflexivity.
      + destruct (_ <? _)%N.
        * eexists. split; [|right; reflexivity]. right. right. reflexivity.
        * exists (error_iid_pattern "" regex_iid_pattern).
          split; [left; reflexivity|by left].
    - rewrite (validate_iid_no_match md Hm). eexists.
      split; [|right; reflexivity]. left. reflexivity. }
  destruct Hiid as (e & Hk & Hl). exists e. split; [exact Hk|].
  assert (Hne : e <> error_version /\ e <> error_id /\ e <> error_name
                /\ e <> error_description).
  { repeat split; intros ->; destruct Hk as [?|[?|?]]; discriminate. }
  destruct Hne as (N1 & N2 & N3 & N4).
  assert (Hsub : validate md `sublist_of`
                   [e; error_version; error_id; error_name; error_description]).
  { rewrite validate_parts.
    destruct Hl as [-> | ->];
    destruct (hasMatch (QRegularExpression_match regex_version (version md)));
    destruct (hasMatch (QRegularExpression_match regex_id (id md)));
    destruct (isEmpty (name md)); destruct (isEmpty (description md)); simpl;
      repeat first [apply sublist_nil_l | apply sublist_skip | apply sublist_cons]. }
  split; [exact Hsub|].
  assert (Hnd : NoDup [e; error_version; error_id; error_name; error_description]).
  { repeat (apply NoDup_cons; split);
      rewrite ?elem_of_cons, ?elem_of_nil; try apply NoDup_nil_2;
      intuition (try congruence; discriminate). }
  split.
  - eapply sublist_NoDup; eassumption.
  - apply sublist_length in Hsub. simpl in Hsub. exact Hsub.
Qed.

Lemma fetch_empty_iff (locale : QLocale) (json : gmap string QJsonValue) (key : string) :
  fetchLocalizedMetadata locale json key = "" <->
  toString (json_at json (localized_key key (locale_name locale))) = "" /\
  toString (json_at json (localized_key key (locale_languageCode locale))) = "" /\
  toString (json_at json key) = "".
Proof.
  unfold fetchLocalizedMetadata.
  destruct (toString (json_at json (localized_key key (locale_name locale)))) as [|a v].
  - simpl.
    destruct (toString (json_at json (localized_key key (locale_languageCode locale))))
      as [|b w]; simpl.
    + tauto.
    + split; [discriminate|]. intros (_ & ? & _). discriminate.
  - simpl. split; [discriminate|]. intros [? _]. discriminate.
Qed.

(** X16. A plugin gets the entry about its name exactly when none of the
    three places the name can come from holds a non-empty string: the key
    for the locale with its territory, the key for the language, and the
    plain key.  The same holds for the description.  A translation alone,
    with the plain key missing, is enough to pass. *)
Theorem name_error_iff_no_variant {platform : Platform} (locale : QLocale)
    (the_iid : string) (raw : gmap string QJsonValue) :
  let md := extract_metadata locale the_iid raw in
  (In error_name (validate md) <->
   toString (json_at raw ("name[" ++ locale_name locale ++ "]")) = "" /\
   toString (json_at raw ("name[" ++ locale_languageCode locale ++ "]")) = "" /\
   toString (json_at raw "name") = "") /\
  (In error_description (validate md) <->
   toString (json_at raw ("description[" ++ locale_name locale ++ "]")) = "" /\
   toString (json_at raw ("description[" ++ locale_languageCode locale ++ "]")) = "" /\
   toString (json_at raw "description") = "").
Proof.
  intros md. rewrite in_validate_name, in_validate_description.
  split; apply fetch_empty_iff.
Qed.

(** X17. Extraction reads the eleven metadata keys and the localized
    variants of name and description for the locale, and nothing else: a
    value stored under, or removed from, any other key leaves the metadata
    extracted, and hence the outcome of validation, as it was. *)
Theorem extract_metadata_ignores_other_keys {platform : Platform} (locale : QLocale)
    (the_iid : string) (raw : gmap string QJsonValue) (k : string) (v : QJsonValue) :
  ~ In k ["id"; "version"; "name"; "description"; "license"; "url"; "authors";
          "runtime_dependencies"; "binary_dependencies"; "credits"; "loadtype";
          "name[" ++ locale_name locale ++ "]";
          "name[" ++ locale_languageCode locale ++ "]";
          "description[" ++ locale_name locale ++ "]";
          "description[" ++ locale_languageCode locale ++ "]"] ->
  extract_metadata locale the_iid (<[k := v]> raw) = extract_metadata locale the_iid raw /\
  extract_metadata locale the_iid (delete k raw) = extract_metadata locale the_iid raw /\
  validate (extract_metadata locale the_iid (<[k := v]> raw))
    = validate (extract_metadata locale the_iid raw).
Proof.
  intros Hk.
  assert (Hne : forall k', In k' ["id"; "version"; "name"; "description"; "license"; "url";
          "authors"; "runtime_dependencies"; "binary_dependencies"; "credits"; "loadtype";
          "name[" ++ locale_name locale ++ "]";
          "name[" ++ locale_languageCode locale ++ "]";
          "description[" ++ locale_name locale ++ "]";
          "description[" ++ locale_languageCode locale ++ "]"] -> k <> k').
  { intros k' Hin ->. contradiction. }
  assert (Hi : forall k', In k' ["id"; "version"; "name"; "description"; "license"; "url";
          "authors"; "runtime_dependencies"; "binary_dependencies"; "credits"; "loadtype";
          "name[" ++ locale_name locale ++ "]";
          "name[" ++ locale_languageCode locale ++ "]";
          "description[" ++ locale_name locale ++ "]";
          "description[" ++ locale_languageCode locale ++ "]"] ->
          json_at (<[k := v]> raw) k' = json_at raw k').
  { intros k' Hin. apply json_at_insert_ne, Hne, Hin. }
  assert (Hd : forall k', In k' ["id"; "version"; "name"; "description"; "license"; "url";
          "authors"; "runtime_dependencies"; "binary_dependencies"; "credits"; "loadtype";
          "name[" ++ locale_name locale ++ "]";
          "name[" ++ locale_languageCode locale ++ "]";
          "description[" ++ locale_name locale ++ "]";
          "description[" ++ locale_languageCode locale ++ "]"] ->
          json_at (delete k raw) k' = json_at raw k').
  { intros k' Hin. apply json_at_delete_ne, Hne, Hin. }
  assert (E1 : extract_metadata locale the_iid (<[k := v]> raw)
               = extract_metadata locale the_iid raw).
  { unfold extract_metadata, fetchLocalizedMetadata, parse_load_type, localized_key.
    rewrite !Hi by (simpl; tauto). reflexivity. }
  split; [exact E1|]. split; [|by rewrite E1].
  unfold extract_metadata, fetchLocalizedMetadata, parse_load_type, localized_key.
  rewrite !Hd by (simpl; tauto). reflexivity.
Qed.

Lemma extract_metadata_ignores_other_keys_witness :
  extract_metadata (platform := example_platform) example_locale
    "org.albert.PluginInterface/0.20" (<["maintainers" := JString "x"]> example_rawMetadata)
  = extract_metadata (platform := example_platform) example_locale
      "org.albert.PluginInterface/0.20" example_rawMetadata.
Proof.
  apply (@extract_metadata_ignores_other_keys example_platform example_locale
           "org.albert.PluginInterface/0.20" example_rawMetadata "maintainers"
           (JString "x")).
  intros H. cbv in H. intuition discriminate.
Defined.

(** X18. The id rule as the code applies it: an id with no lowercase
    letter, digit or underscore in it, the empty id among them, gets the
    entry; an id with at least one such character gets none, whatever
    stands before and after it. *)
Theorem id_rule_needs_one_character {platform : Platform} (md : PluginMetaData) :
  (In error_id (validate md) <-> string_forallb (fun a => negb (in_class id_class a)) (id md) = true) /\
  (id md = "" -> In error_id (validate md)) /\
  (forall before a after,
     in_class id_class a = true -> id md = before ++ String a after ->
     ~ In error_id (validate md)).
Proof.
  assert (Hall : forall s, string_existsb (in_class id_class) s = false <->
                  string_forallb (fun a => negb (in_class id_class a)) s = true).
  { induction s as [|a s IH]; cbn [string_existsb string_forallb]; [done|].
    destruct (in_class id_class a); cbn [orb andb negb];
      [split; discriminate|exact IH]. }
  assert (Hmid : forall before a after, in_class id_class a = true ->
                  string_existsb (in_class id_class) (before ++ String a after) = true).
  { induction before as [|b before IH]; intros a after Ha.
    - change ("" ++ String a after) with (String a after).
      cbn [string_existsb]. by rewrite Ha.
    - change (String b before ++ String a after)
        with (String b (before ++ String a after)).
      cbn [string_existsb]. rewrite (IH a after Ha). apply orb_true_r. }
  split; [rewrite id_rule_as_coded; apply Hall|]. split.
  - intros E. apply id_rule_as_coded. rewrite E. reflexivity.
  - intros before a after Ha E. rewrite id_rule_as_coded, E, (Hmid before a after Ha).
    discriminate.
Qed.

(** ** The matcher, forwards *)

Lemma append_cons (a : ascii) (s r : string) : String a s ++ r = String a (s ++ r).
Proof. reflexivity. Qed.

Lemma append_nil_l (r : string) : "" ++ r = r.
Proof. reflexivity. Qed.

Lemma append_assoc (a b c : string) : (a ++ b) ++ c = a ++ b ++ c.
Proof. induction a as [|x a IH]; [reflexivity|]. by rewrite !append_cons, IH. Qed.

Lemma length_append (a b : string) :
  String.length (a ++ b) = (String.length a + String.length b)%nat.
Proof.
  induction a as [|x a IH]; [reflexivity|].
  rewrite append_cons. cbn [String.length]. by rewrite IH.
Qed.

Lemma string_forallb_append (f : ascii -> bool) (a b : string) :
  string_forallb f (a ++ b) = string_forallb f a && string_forallb f b.
Proof.
  induction a as [|x a IH]; [reflexivity|].
  rewrite append_cons. cbn [string_forallb]. by rewrite IH, andb_assoc.
Qed.

Lemma run_Plus (r1 : regex) (c : cursor) (k : cursor -> option cursor) :
  run (Plus r1) c k = plus_loop r1 k (String.length (rest c)) c.
Proof. reflexivity. Qed.

Lemma plus_loop_unfold (rs : list (ascii * ascii)) (k : cursor -> option cursor)
    (n : nat) (c0 : cursor) :
  plus_loop (Class rs) k n c0 =
    match rest c0 with
    | EmptyString => None
    | String b s =>
        if in_class rs b then
          match n with
          | S n' => orelse (plus_loop (Class rs) k n' (advance c0 s)) (k (advance c0 s))
          | O => k (advance c0 s)
          end
        else None
    end.
Proof.
  destruct n as [|n]; cbn [plus_loop run]; destruct (rest c0) as [|b s]; try reflexivity;
    destruct (in_class rs b); try reflexivity.
  cbn [advance pos]. replace (pos c0 <? S (pos c0))%nat with true; [reflexivity|].
  symmetry. apply Nat.ltb_lt. lia.
Qed.

Lemma after_advance (c : cursor) (b : ascii) (w s r : string) :
  after (advance c s) w r = after c (String b w) r.
Proof.
  unfold after, advance. cbn [pos caps String.length]. f_equal. lia.
Qed.

(** Greedy and exact: when the run of class characters ends where the text
    ahead no longer starts with one, and the rest of the pattern succeeds
    from there, that success is the result. *)
Lemma plus_loop_greedy (rs : list (ascii * ascii)) (k : cursor -> option cursor)
    (w : string) :
  forall (n : nat) (c0 : cursor) (r : string) (cf : cursor),
    rest c0 = w ++ r -> w <> "" -> string_forallb (in_class rs) w = true ->
    starts_in_class rs r = false ->
    String.length w <= S n ->
    k (after c0 w r) = Some cf ->
    plus_loop (Class rs) k n c0 = Some cf.
Proof.
  induction w as [|b w IH]; intros n c0 r cf Hrest Hne Hall Hr Hlen Hk; [done|].
  rewrite append_cons in Hrest. cbn [string_forallb] in Hall.
  apply andb_true_iff in Hall as [Hb Hw].
  rewrite plus_loop_unfold, Hrest, Hb.
  destruct w as [|b' w'].
  - rewrite append_nil_l in *.
    assert (Ek : k (advance c0 r) = Some cf) by exact Hk.
    destruct n as [|n]; [exact Ek|].
    rewrite plus_loop_unfold. cbn [advance rest].
    destruct r as [|x r]; [exact Ek|]. cbn [starts_in_class] in Hr. rewrite Hr. exact Ek.
  - destruct n as [|n]; [cbn [String.length] in Hlen; lia|].
    rewrite (IH n (advance c0 (String b' w' ++ r)) r cf); [reflexivity|reflexivity|done|
      exact Hw|exact Hr|cbn [String.length] in *; lia|].
    rewrite after_advance with (b := b). exact Hk.
Qed.

(** Complete: when the rest of the pattern succeeds after some run of class
    characters, the loop succeeds, there or further on. *)
Lemma plus_loop_complete (rs : list (ascii * ascii)) (k : cursor -> option cursor)
    (w : string) :
  forall (n : nat) (c0 : cursor) (r : string),
    rest c0 = w ++ r -> w <> "" -> string_forallb (in_class rs) w = true ->
    String.length w <= S n ->
    is_Some (k (after c0 w r)) ->
    is_Some (plus_loop (Class rs) k n c0).
Proof.
  induction w as [|b w IH]; intros n c0 r Hrest Hne Hall Hlen Hk; [done|].
  rewrite append_cons in Hrest. cbn [string_forallb] in Hall.
  apply andb_true_iff in Hall as [Hb Hw].
  rewrite plus_loop_unfold, Hrest, Hb.
  destruct w as [|b' w'].
  - rewrite append_nil_l in *.
    assert (Ek : is_Some (k (advance c0 r))) by exact Hk.
    destruct n as [|n]; [exact Ek|].
    destruct (plus_loop (Class rs) k n (advance c0 r)); [by eexists|exact Ek].
  - destruct n as [|n]; [cbn [String.length] in Hlen; lia|].
    assert (Hs : is_Some (plus_loop (Class rs) k n (advance c0 (String b' w' ++ r)))).
    { apply (IH n _ r); [reflexivity|done|exact Hw|cbn [String.length] in *; lia|].
      rewrite after_advance with (b := b). exact Hk. }
    destruct Hs as [x ->]. by eexists.
Qed.

Lemma run_group_unfold (n : nat) (rs : list (ascii * ascii)) (c : cursor)
    (k : cursor -> option cursor) :
  run (Group n (Plus (Class rs))) c k =
    plus_loop (Class rs)
      (fun c' => k {| pos := pos c'; rest := rest c';
                      caps := <[n := substring 0 (pos c' - pos c) (rest c)]> (caps c') |})
      (String.length (rest c)) c.
Proof. reflexivity. Qed.

Lemma group_continuation (n : nat) (c : cursor) (w r : string)
    (k : cursor -> option cursor) :
  rest c = w ++ r ->
  k {| pos := pos (after c w r); rest := rest (after c w r);
       caps := <[n := substring 0 (pos (after c w r) - pos c) (rest c)]>
                 (caps (after c w r)) |}
  = k (after_group n c w r).
Proof.
  intros Hrest. unfold after, after_group. cbn [pos rest caps]. rewrite Hrest.
  replace (String.length w + pos c - pos c)%nat with (String.length w) by lia.
  by rewrite substring_app_prefix.
Qed.

Lemma run_group_greedy (n : nat) (rs : list (ascii * ascii)) (c : cursor)
    (k : cursor -> option cursor) (w r : string) (cf : cursor) :
  rest c = w ++ r -> w <> "" -> string_forallb (in_class rs) w = true ->
  starts_in_class rs r = false ->
  k (after_group n c w r) = Some cf ->
  run (Group n (Plus (Class rs))) c k = Some cf.
Proof.
  intros Hrest Hne Hall Hr Hk. rewrite run_group_unfold.
  apply (plus_loop_greedy rs _ w _ c r cf); try assumption.
  - rewrite Hrest, length_append. lia.
  - rewrite group_continuation; assumption.
Qed.

Lemma run_group_complete (n : nat) (rs : list (ascii * ascii)) (c : cursor)
    (k : cursor -> option cursor) (w r : string) :
  rest c = w ++ r -> w <> "" -> string_forallb (in_class rs) w = true ->
  is_Some (k (after_group n c w r)) ->
  is_Some (run (Group n (Plus (Class rs))) c k).
Proof.
  intros Hrest Hne Hall Hk. rewrite run_group_unfold.
  apply (plus_loop_complete rs _ w _ c r); try assumption.
  - rewrite Hrest, length_append. lia.
  - rewrite group_continuation; assumption.
Qed.

Lemma run_Chr_at (a : ascii) (c : cursor) (s : string) (k : cursor -> option cursor) :
  rest c = String a s -> run (Chr a) c k = k (advance c s).
Proof. intros H. cbn [run]. by rewrite H, Ascii.eqb_refl. Qed.

Lemma skip_continuation_app (t r : string) :
  string_forallb is_continuation t = true ->
  skip_continuation (String.length t) (t ++ r) = Some r.
Proof.
  induction t as [|a t IH]; intros H; [reflexivity|].
  cbn [string_forallb] in H. apply andb_true_iff in H as [Ha Ht].
  rewrite append_cons. cbn [String.length skip_continuation]. rewrite Ha. by apply IH.
Qed.

Lemma code_point_not_LF (b : ascii) (t : string) :
  utf8_following b = Some (String.length t) -> String b t <> String LF "" -> b <> LF.
Proof.
  intros Hf Hne ->. apply Hne. f_equal.
  change (utf8_following LF) with (Some 0) in Hf. injection Hf as Hf.
  by destruct t.
Qed.

Lemma code_point_dot : code_point ".".
Proof. exists "."%char, "". by repeat split. Qed.

Lemma run_Any_at (u : string) (c : cursor) (r : string) (k : cursor -> option cursor) :
  rest c = u ++ r -> code_point u -> u <> String LF "" ->
  run Any c k = k (after c u r).
Proof.
  intros Hrest (b & t & -> & Hf & Ht) Hne. rewrite append_cons in Hrest.
  pose proof (code_point_not_LF b t Hf Hne) as Hb.
  cbn [run]. rewrite Hrest.
  replace (Ascii.eqb b LF) with false by (symmetry; by apply Ascii.eqb_neq).
  rewrite Hf, (skip_continuation_app t r Ht). reflexivity.
Qed.

Lemma run_Seq (r1 r2 : regex) (c : cursor) (k : cursor -> option cursor) :
  run (Seq r1 r2) c k = run r1 c (fun c' => run r2 c' k).
Proof. reflexivity. Qed.

Lemma run_Str_at (w : string) :
  forall (c : cursor) (r : string) (k : cursor -> option cursor),
    w <> "" -> rest c = w ++ r -> run (Str w) c k = k (after c w r).
Proof.
  induction w as [|a w IH]; intros c r k Hne Hrest; [done|].
  rewrite append_cons in Hrest. destruct w as [|b w].
  - cbn [Str]. by rewrite (run_Chr_at a c r k Hrest).
  - change (Str (String a (String b w))) with (Seq (Chr a) (Str (String b w))).
    rewrite run_Seq, (run_Chr_at a c _ _ Hrest).
    rewrite (IH (advance c (String b w ++ r)) r k); [|done|reflexivity].
    by rewrite after_advance with (b := a).
Qed.

(** A match found at an offset is found by the search from any offset
    before it. *)
Lemma search_complete (r : regex) (pre : string) :
  forall (p : nat) (s : string),
    is_Some (run r (Cursor (String.length pre + p) s ∅) Some) ->
    is_Some (search r p (pre ++ s)).
Proof.
  induction pre as [|a pre IH]; intros p s H.
  - rewrite append_nil_l. destruct s as [|b s]; cbn [search];
      destruct H as [cf H]; cbn [String.length Nat.add] in H; rewrite H; by eexists.
  - rewrite append_cons. cbn [search].
    destruct (run r (Cursor p (String a (pre ++ s)) ∅) Some); [by eexists|].
    apply IH. cbn [String.length] in H.
    by replace (String.length pre + S p)%nat with (S (String.length pre) + p)%nat by lia.
Qed.

(** ** The matcher, backwards *)

Lemma orelse_Some {A : Type} (x y : option A) (v : A) :
  orelse x y = Some v -> x = Some v \/ x = None /\ y = Some v.
Proof. destruct x; simpl; [intros [= ->]; by left|intros ->; by right]. Qed.

Lemma run_Chr_inv (a : ascii) (c cf : cursor) (k : cursor -> option cursor) :
  run (Chr a) c k = Some cf ->
  exists s, rest c = String a s /\ k (advance c s) = Some cf.
Proof.
  cbn [run]. destruct (rest c) as [|b s]; [discriminate|].
  destruct (Ascii.eqb_spec a b) as [->|]; [|discriminate]. intros H. by exists s.
Qed.

Lemma skip_continuation_inv (n : nat) :
  forall s s', skip_continuation n s = Some s' ->
    exists t, s = t ++ s' /\ String.length t = n /\ string_forallb is_continuation t = true.
Proof.
  induction n as [|n IH]; intros s s' H; cbn [skip_continuation] in H.
  - injection H as ->. by exists "".
  - destruct s as [|a s]; [discriminate|].
    destruct (is_continuation a) eqn:Ea; [|discriminate].
    apply IH in H as (t & -> & <- & Ht). exists (String a t).
    cbn [string_forallb String.length]. rewrite Ea, Ht. by repeat split.
Qed.

Lemma run_Any_inv (c cf : cursor) (k : cursor -> option cursor) :
  run Any c k = Some cf ->
  exists u r,
    rest c = u ++ r /\ code_point u /\ u <> String LF "" /\ k (after c u r) = Some cf.
Proof.
  cbn [run]. destruct (rest c) as [|b s]; [discriminate|].
  destruct (Ascii.eqb_spec b LF) as [->|Hb]; [discriminate|].
  destruct (utf8_following b) as [n|] eqn:Ef; [|discriminate].
  destruct (skip_continuation n s) as [s'|] eqn:Es; [|discriminate].
  apply skip_continuation_inv in Es as (t & -> & <- & Ht). intros H.
  exists (String b t), s'. split; [by rewrite append_cons|].
  split; [by exists b, t|]. split; [congruence|exact H].
Qed.

Lemma run_Str_inv (w : string) :
  forall (c cf : cursor) (k : cursor -> option cursor),
    w <> "" -> run (Str w) c k = Some cf ->
    exists r, rest c = w ++ r /\ k (after c w r) = Some cf.
Proof.
  induction w as [|a w IH]; intros c cf k Hne H; [done|].
  destruct w as [|b w].
  - apply run_Chr_inv in H as (s & Hs & H). by exists s.
  - change (Str (String a (String b w))) with (Seq (Chr a) (Str (String b w))) in H.
    rewrite run_Seq in H. apply run_Chr_inv in H as (s & Hs & H).
    apply IH in H as (r & Hr & H); [|done].
    exists r. cbn [advance rest] in Hr. rewrite Hs, Hr, append_cons. split; [done|].
    by rewrite after_advance with (b := a) in H.
Qed.

Lemma plus_loop_inv (rs : list (ascii * ascii)) (k : cursor -> option cursor) :
  forall (n : nat) (c0 cf : cursor),
    plus_loop (Class rs) k n c0 = Some cf ->
    exists w r,
      w <> "" /\ string_forallb (in_class rs) w = true /\
      rest c0 = w ++ r /\ k (after c0 w r) = Some cf.
Proof.
  induction n as [|n IH]; intros c0 cf H; rewrite plus_loop_unfold in H;
    destruct (rest c0) as [|b s] eqn:Er; try discriminate;
    destruct (in_class rs b) eqn:Eb; try discriminate.
  - exists (String b ""), s. cbn [string_forallb]. rewrite Eb. by repeat split.
  - apply orelse_Some in H as [H|[_ H]].
    + apply IH in H as (w & r & Hw & Hall & Hrest & Hk).
      exists (String b w), r. cbn [string_forallb]. rewrite Eb, Hall.
      cbn [advance rest] in Hrest. rewrite Hrest, append_cons.
      rewrite after_advance with (b := b) in Hk. by repeat split.
    + exists (String b ""), s. cbn [string_forallb]. rewrite Eb. by repeat split.
Qed.

Lemma run_group_inv (n : nat) (rs : list (ascii * ascii)) (c cf : cursor)
    (k : cursor -> option cursor) :
  run (Group n (Plus (Class rs))) c k = Some cf ->
  exists w r,
    w <> "" /\ string_forallb (in_class rs) w = true /\
    rest c = w ++ r /\ k (after_group n c w r) = Some cf.
Proof.
  rewrite run_group_unfold. intros H.
  apply plus_loop_inv in H as (w & r & Hw & Hall & Hrest & Hk).
  exists w, r. rewrite group_continuation in Hk by assumption. by repeat split.
Qed.

(** A match found by the search starts somewhere in the subject. *)
Lemma search_inv (r : regex) (s : string) :
  forall (p : nat) (g : gmap nat string),
    search r p s = Some g ->
    exists pre s' cf,
      s = pre ++ s' /\
      run r (Cursor (String.length pre + p) s' ∅) Some = Some cf /\
      g = <[0%nat := substring 0 (pos cf - (String.length pre + p)) s']> (caps cf).
Proof.
  induction s as [|a s IH]; intros p g; cbn [search].
  - destruct (run r (Cursor p "" ∅) Some) as [cf|] eqn:E; [|discriminate].
    intros [= <-]. by exists "", "", cf.
  - destruct (run r (Cursor p (String a s) ∅) Some) as [cf|] eqn:E.
    + intros [= <-]. by exists "", (String a s), cf.
    + intros H. apply IH in H as (pre & s' & cf & -> & Hrun & ->).
      exists (String a pre), s', cf. cbn [String.length].
      replace (S (String.length pre) + p)%nat with (String.length pre + S p)%nat by lia.
      by repeat split.
Qed.

Lemma run_Bol_inv (c cf : cursor) (k : cursor -> option cursor) :
  run Bol c k = Some cf -> pos c = 0 /\ k c = Some cf.
Proof.
  cbn [run]. destruct (Nat.eqb_spec (pos c) 0) as [E|E]; [|discriminate]. by split.
Qed.

Lemma run_Bol_at (c : cursor) (k : cursor -> option cursor) :
  pos c = 0 -> run Bol c k = k c.
Proof. intros H. cbn [run]. by rewrite H. Qed.

Lemma run_Eol_inv (c cf : cursor) (k : cursor -> option cursor) :
  run Eol c k = Some cf ->
  (rest c = "" \/ rest c = String LF "") /\ k c = Some cf.
Proof.
  cbn [run]. destruct (rest c) as [|b [|b' s]]; [by intros; split; [left|]| |discriminate].
  destruct (Ascii.eqb_spec b LF) as [->|]; [|discriminate]. intros H. split; [by right|done].
Qed.

Lemma run_Eol_at (c : cursor) (k : cursor -> option cursor) :
  rest c = "" \/ rest c = String LF "" -> run Eol c k = k c.
Proof. cbn [run]. by intros [-> | ->]. Qed.

Lemma run_Opt (r1 : regex) (c : cursor) (k : cursor -> option cursor) :
  run (Opt r1) c k = orelse (run r1 c k) (k c).
Proof. reflexivity. Qed.

Lemma run_Atomic (r1 : regex) (c : cursor) (k : cursor -> option cursor) :
  run (Atomic r1) c k = match run r1 c Some with Some c' => k c' | None => None end.
Proof. reflexivity. Qed.

Lemma digits_run_class (w : string) :
  w <> "" /\ string_forallb (in_class [("0"%char, "9"%char)]) w = true <-> digits_run w.
Proof. unfold digits_run. by rewrite digit_class_forallb. Qed.

Lemma starts_in_class_dot (r : string) :
  starts_in_class [("0"%char, "9"%char)] (String "."%char r) = false.
Proof. reflexivity. Qed.

Lemma length_zero_empty (s : string) : String.length s = 0 -> s = "".
Proof. by destruct s. Qed.

(** X19. The version pattern accepts exactly the texts made of two or
    three non-empty runs of ASCII digits with single dots between them,
    possibly followed by one line feed at the very end. *)
Theorem version_pattern_accepts_iff (s : string) :
  hasMatch (QRegularExpression_match regex_version s) = true <-> version_shape s.
Proof.
  unfold QRegularExpression_match, regex_version, digit. split.
  - destruct (search _ 0 s) as [g|] eqn:E; [intros _|discriminate].
    apply search_inv in E as (pre & s' & cf & -> & H & _).
    rewrite run_Seq in H. apply run_Bol_inv in H as [Hp H]. cbn [pos] in Hp.
    assert (pre = "") as -> by (apply length_zero_empty; lia).
    rewrite append_nil_l. clear Hp.
    rewrite run_Seq in H. apply run_group_inv in H as (w1 & r1 & N1 & D1 & R1 & H).
    cbn [rest] in R1. subst s'.
    rewrite run_Seq, run_Opt in H.
    assert (Htail : forall c : cursor,
              run (Seq (Chr ".") (Seq (Group 3 (Plus (Class [("0"%char, "9"%char)]))) Eol))
                c Some = Some cf ->
              exists w3 tail, digits_run w3 /\ (tail = "" \/ tail = String LF "") /\
                              rest c = "." ++ w3 ++ tail).
    { intros c Hc. rewrite run_Seq in Hc. apply run_Chr_inv in Hc as (s3 & R3 & Hc).
      rewrite run_Seq in Hc. apply run_group_inv in Hc as (w3 & r3 & N3 & D3 & R4 & Hc).
      apply run_Eol_inv in Hc as [Ht _]. cbn [rest advance after_group] in *.
      exists w3, r3. split; [by apply digits_run_class|]. split; [exact Ht|].
      by rewrite R3, R4. }
    apply orelse_Some in H as [H|[_ H]].
    + rewrite run_Atomic in H.
      destruct (run (Seq (Chr ".") (Group 2 (Plus (Class [("0"%char, "9"%char)]))))
                  (after_group 1 {| pos := String.length "" + 0; rest := w1 ++ r1; caps := ∅ |}
                     w1 r1) Some) as [c'|] eqn:Ea; [|discriminate].
      rewrite run_Seq in Ea. apply run_Chr_inv in Ea as (s2 & R2 & Ea).
      apply run_group_inv in Ea as (w2 & r2 & N2 & D2 & R2' & Ea).
      injection Ea as <-. cbn [rest advance after_group] in *.
      apply Htail in H as (w3 & tail & D3 & Ht & Rt). cbn [rest after_group] in Rt.
      exists w1, w2, tail. split; [by apply digits_run_class|].
      split; [by apply digits_run_class|]. split; [exact Ht|]. right.
      exists w3. split; [exact D3|]. by rewrite R2, R2', Rt.
    + apply Htail in H as (w3 & tail & D3 & Ht & Rt). cbn [rest after_group] in Rt.
      exists w1, w3, tail. split; [by apply digits_run_class|].
      split; [exact D3|]. split; [exact Ht|]. left. by rewrite Rt.
  - intros (a & b & tail & Da & Db & Ht & Hs).
    apply digits_run_class in Da as [Na Fa]. apply digits_run_class in Db as [Nb Fb].
    assert (Hsome : is_Some (search
              (Seq Bol (Seq (Group 1 (Plus (Class [("0"%char, "9"%char)])))
                 (Seq (Opt (Atomic (Seq (Chr ".")
                                        (Group 2 (Plus (Class [("0"%char, "9"%char)]))))))
                      (Seq (Chr ".")
                         (Seq (Group 3 (Plus (Class [("0"%char, "9"%char)]))) Eol)))))
              0 s));
      [|by destruct Hsome as [g ->]].
    apply (search_complete _ "" 0 s). cbn [String.length Nat.add].
    rewrite run_Seq, run_Bol_at by reflexivity. rewrite run_Seq.
    assert (Htail : forall (c : cursor) (w3 : string),
              w3 <> "" -> string_forallb (in_class [("0"%char, "9"%char)]) w3 = true ->
              rest c = "." ++ w3 ++ tail ->
              is_Some (run (Seq (Chr ".")
                         (Seq (Group 3 (Plus (Class [("0"%char, "9"%char)]))) Eol)) c Some)).
    { intros c w3 N3 F3 Rc. rewrite run_Seq, (run_Chr_at "." c (w3 ++ tail) _ Rc), run_Seq.
      apply (run_group_complete 3 _ _ _ w3 tail); [reflexivity|assumption..|].
      rewrite run_Eol_at by exact Ht. by eexists. }
    destruct Hs as [-> | (c3 & D3 & ->)].
    + apply (run_group_complete 1 _ _ _ a ("." ++ b ++ tail)); [reflexivity|assumption..|].
      rewrite run_Seq, run_Opt.
      assert (Hk : is_Some (run (Seq (Chr ".")
                     (Seq (Group 3 (Plus (Class [("0"%char, "9"%char)]))) Eol))
                     (after_group 1 {| pos := 0; rest := a ++ "." ++ b ++ tail; caps := ∅ |}
                        a ("." ++ b ++ tail)) Some))
        by (by apply (Htail _ b)).
      destruct (run (Atomic _) _ _); [by eexists|exact Hk].
    + apply digits_run_class in D3 as [N3 F3].
      apply (run_group_complete 1 _ _ _ a ("." ++ b ++ "." ++ c3 ++ tail));
        [reflexivity|assumption..|].
      rewrite run_Seq, run_Opt, run_Atomic, run_Seq.
      rewrite (run_Chr_at "." _ (b ++ "." ++ c3 ++ tail)) by reflexivity.
      erewrite (run_group_greedy 2 _ _ Some b ("." ++ c3 ++ tail));
        [|reflexivity|exact Nb|exact Fb|reflexivity|reflexivity].
      match goal with
      | |- is_Some (orelse ?x _) =>
          assert (Hk : is_Some x) by (by apply (Htail _ c3));
          destruct Hk as [y ->]; by eexists
      end.
Qed.

(** ** Numbers as text *)

Lemma pretty_N_char_digit (d : N) :
  (d < 10)%N ->
  is_digit (pretty_N_char d) = true /\ (N_of_ascii (pretty_N_char d) - 48)%N = d.
Proof.
  intros H.
  assert (E : (d = 0 \/ d = 1 \/ d = 2 \/ d = 3 \/ d = 4 \/ d = 5 \/ d = 6 \/ d = 7
               \/ d = 8 \/ d = 9)%N) by lia.
  repeat (destruct E as [->|E]; [vm_compute; split; reflexivity|]).
  subst. vm_compute. split; reflexivity.
Qed.

Lemma parse_digits_append (w r : string) :
  forall acc v, parse_digits acc w = Some v -> parse_digits acc (w ++ r) = parse_digits v r.
Proof.
  induction w as [|a w IH]; intros acc v H.
  - cbn [parse_digits] in H. injection H as ->. reflexivity.
  - rewrite append_cons. cbn [parse_digits] in *.
    destruct (is_digit a); [|discriminate]. by apply IH.
Qed.

(** The digits that [pretty] writes for a number: a run of digits that
    reads back as the number, appended to whatever was there. *)
Lemma pretty_N_go_digits (x : N) :
  exists w,
    (forall s, pretty_N_go x s = w ++ s) /\
    string_forallb is_digit w = true /\
    ((0 < x)%N -> w <> "") /\
    (forall acc, parse_digits acc w = Some (acc * 10 ^ N.of_nat (String.length w) + x)%N).
Proof.
  induction x as [x IH] using (well_founded_induction N.lt_wf_0).
  destruct (decide (x = 0%N)) as [->|Hx].
  - exists "". split; [intros s; by rewrite pretty_N_go_0|]. split; [reflexivity|].
    split; [lia|]. intros acc. cbn [parse_digits String.length]. f_equal. cbn. lia.
  - assert (Hpos : (0 < x)%N) by lia.
    destruct (IH (x `div` 10)%N) as (w & Hw & Hd & _ & Hp).
    { apply N.div_lt; lia. }
    destruct (pretty_N_char_digit (x `mod` 10)%N) as [Hc1 Hc2].
    { apply N.mod_lt. lia. }
    exists (w ++ String (pretty_N_char (x `mod` 10)) "").
    split; [|split; [|split]].
    + intros s. rewrite (pretty_N_go_step x s Hpos), Hw, append_assoc. reflexivity.
    + rewrite string_forallb_append, Hd. cbn [string_forallb]. by rewrite Hc1.
    + intros _ E. apply (f_equal String.length) in E.
      rewrite length_append in E. cbn [String.length] in E. lia.
    + intros acc. rewrite (parse_digits_append w _ acc _ (Hp acc)).
      cbn [parse_digits]. rewrite Hc1, Hc2. f_equal.
      rewrite length_append. cbn [String.length].
      rewrite Nat2N.inj_add, N.pow_add_r. change (10 ^ N.of_nat 1)%N with 10%N.
      pose proof (N.div_mod x 10 ltac:(lia)) as Hdm. nia.
Qed.

Lemma pretty_N_digits (n : N) :
  digits_run (pretty n) /\ parse_digits 0 (pretty n) = Some n.
Proof.
  unfold pretty, pretty_N. destruct (decide (n = 0%N)) as [->|Hn].
  - split; [split; [discriminate|reflexivity]|reflexivity].
  - destruct (pretty_N_go_digits n) as (w & Hw & Hd & Hne & Hp).
    rewrite Hw. assert (E : w ++ "" = w).
    { clear. induction w as [|a w IH]; [reflexivity|]. by rewrite append_cons, IH. }
    rewrite E. split; [split; [apply Hne; lia|exact Hd]|].
    rewrite Hp. f_equal; lia.
Qed.

(** [toUInt] reads back what was written for a number that fits 32 bits,
    leading zeros or not, and reads 0 for a number that does not fit. *)
Lemma toUInt_pretty (n : N) :
  toUInt (pretty n) = (if (n <=? UINT_MAX)%N then n else 0%N) /\
  (forall zeros, string_forallb (Ascii.eqb "0"%char) zeros = true ->
     toUInt (zeros ++ pretty n) = (if (n <=? UINT_MAX)%N then n else 0%N)).
Proof.
  destruct (pretty_N_digits n) as [[Hne Hd] Hp].
  assert (H0 : toUInt (pretty n) = (if (n <=? UINT_MAX)%N then n else 0%N)).
  { unfold toUInt. destruct (pretty n); [done|]. by rewrite Hp. }
  split; [exact H0|].
  intros zeros Hz.
  assert (Hz0 : forall acc, acc = 0%N -> parse_digits acc zeros = Some 0%N).
  { induction zeros as [|a z IH]; intros acc ->; [reflexivity|].
    cbn [string_forallb] in Hz. apply andb_true_iff in Hz as [Ha Hz].
    apply Ascii.eqb_eq in Ha as <-. cbn [parse_digits].
    change (is_digit "0") with true. cbv iota. apply IH; [exact Hz|reflexivity]. }
  destruct zeros as [|a z]; [by rewrite append_nil_l|].
  unfold toUInt. rewrite append_cons, <- append_cons.
  rewrite (parse_digits_append _ _ 0%N 0%N (Hz0 0%N eq_refl)), Hp. reflexivity.
Qed.

(** ** What the interface id pattern accepts and reads *)

Lemma append_nil_r (w : string) : w ++ "" = w.
Proof. induction w as [|a w IH]; [reflexivity|]. by rewrite append_cons, IH. Qed.

Lemma search_at_start (r : regex) (p : nat) (s : string) (cf : cursor) :
  run r (Cursor p s ∅) Some = Some cf ->
  search r p s = Some (<[0%nat := substring 0 (pos cf - p) s]> (caps cf)).
Proof. intros H. destruct s; cbn [search]; by rewrite H. Qed.

(** The interface id written for two runs of digits is matched from its
    first character, and the two groups capture the two runs. *)
Lemma iid_match_of_runs (w1 w2 : string) :
  digits_run w1 -> digits_run w2 ->
  let m := QRegularExpression_match regex_iid
             ("org.albert.PluginInterface/" ++ w1 ++ "." ++ w2) in
  hasMatch m = true /\ captured m 1 = w1 /\ captured m 2 = w2.
Proof.
  intros D1 D2. apply digits_run_class in D1 as [N1 F1].
  apply digits_run_class in D2 as [N2 F2].
  assert (H : exists cf,
            run regex_iid (Cursor 0 ("org.albert.PluginInterface/" ++ w1 ++ "." ++ w2) ∅) Some
              = Some cf /\
            caps cf = <[2%nat := w2]> (<[1%nat := w1]> ∅)).
  { unfold regex_iid, digit. eexists.
    rewrite run_Seq.
    rewrite (run_Str_at "org" _ (".albert.PluginInterface/" ++ w1 ++ "." ++ w2))
      by (reflexivity || discriminate).
    rewrite run_Seq.
    rewrite (run_Any_at "." _ ("albert.PluginInterface/" ++ w1 ++ "." ++ w2))
      by first [reflexivity | discriminate | apply code_point_dot].
    rewrite run_Seq.
    rewrite (run_Str_at "albert" _ (".PluginInterface/" ++ w1 ++ "." ++ w2))
      by (reflexivity || discriminate).
    rewrite run_Seq.
    rewrite (run_Any_at "." _ ("PluginInterface/" ++ w1 ++ "." ++ w2))
      by first [reflexivity | discriminate | apply code_point_dot].
    rewrite run_Seq.
    rewrite (run_Str_at "PluginInterface/" _ (w1 ++ "." ++ w2))
      by (reflexivity || discriminate).
    rewrite run_Seq.
    erewrite (run_group_greedy 1 _ _ _ w1 ("." ++ w2));
      [|reflexivity|exact N1|exact F1|reflexivity|].
    2:{ rewrite run_Seq.
        rewrite (run_Any_at "." _ w2)
          by first [reflexivity | discriminate | apply code_point_dot].
        apply (run_group_greedy 2 _ _ Some w2 "");
          [cbn [rest advance]; by rewrite append_nil_r|exact N2|exact F2
          |reflexivity|reflexivity]. }
    split; reflexivity. }
  destruct H as (cf & Hrun & Hcaps). unfold QRegularExpression_match.
  rewrite (search_at_start _ _ _ _ Hrun), Hcaps. cbn [hasMatch captured].
  split; [reflexivity|].
  rewrite lookup_insert_ne by done. rewrite lookup_insert_ne by done.
  rewrite lookup_insert_eq.
  rewrite lookup_insert_ne by done. rewrite lookup_insert_eq. done.
Qed.

(** X20. The interface id that a plugin built against interface
    [major].[minor] declares is read back as these two numbers when they fit
    32 bits, and the interface id check passes it exactly when the major
    number is that of the application and the minor number is not above the
    application's; otherwise the entry it adds names the number that is
    wrong. *)
Theorem canonical_iid_verdict {platform : Platform} (major minor : N) (md : PluginMetaData) :
  iid md = canonical_iid major minor ->
  (major <= UINT_MAX)%N -> (minor <= UINT_MAX)%N ->
  let m := QRegularExpression_match regex_iid (iid md) in
  toUInt (captured m 1) = major /\
  toUInt (captured m 2) = minor /\
  validate_iid [] md =
    (if negb (major =? ALBERT_VERSION_MAJOR)%N
     then [error_major major ALBERT_VERSION_MAJOR]
     else if (ALBERT_VERSION_MINOR <? minor)%N
          then [error_minor minor ALBERT_VERSION_MINOR]
          else []) /\
  (validate_iid [] md = [] <->
   major = ALBERT_VERSION_MAJOR /\ (minor <= ALBERT_VERSION_MINOR)%N).
Proof.
  intros Hiid Hmaj Hmin m.
  destruct (iid_match_of_runs (pretty major) (pretty minor)
              (proj1 (pretty_N_digits major)) (proj1 (pretty_N_digits minor)))
    as (Hm & H1 & H2).
  fold (canonical_iid major minor) in Hm, H1, H2. rewrite <- Hiid in Hm, H1, H2.
  fold m in Hm, H1, H2.
  assert (E1 : toUInt (captured m 1) = major).
  { rewrite H1, (proj1 (toUInt_pretty major)).
    by replace (major <=? UINT_MAX)%N with true by (symmetry; by apply N.leb_le). }
  assert (E2 : toUInt (captured m 2) = minor).
  { rewrite H2, (proj1 (toUInt_pretty minor)).
    by replace (minor <=? UINT_MAX)%N with true by (symmetry; by apply N.leb_le). }
  split; [exact E1|]. split; [exact E2|].
  assert (Ev : validate_iid [] md =
    (if negb (major =? ALBERT_VERSION_MAJOR)%N
     then [error_major major ALBERT_VERSION_MAJOR]
     else if (ALBERT_VERSION_MINOR <? minor)%N
          then [error_minor minor ALBERT_VERSION_MINOR]
          else [])).
  { rewrite (validate_iid_match md Hm). fold m. by rewrite E1, E2. }
  split; [exact Ev|]. rewrite Ev.
  destruct (N.eqb_spec major ALBERT_VERSION_MAJOR) as [E|E]; simpl.
  - destruct (N.ltb_spec ALBERT_VERSION_MINOR minor) as [L|L].
    + split; [discriminate|]. intros [_ ?]. lia.
    + split; [|done]. intros _. split; [done|lia].
  - split; [discriminate|]. intros [? _]. contradiction.
Qed.

Lemma canonical_iid_verdict_witness :
  validate_iid (platform := example_platform) []
    (example_metadata (canonical_iid 0 7) "calculator" "1.4" "Calculator" "Evaluates") = [].
Proof.
  apply (proj2 (proj2 (proj2 (@canonical_iid_verdict example_platform 0 7
           (example_metadata (canonical_iid 0 7) "calculator" "1.4" "Calculator" "Evaluates")
           eq_refl ltac:(vm_compute; discriminate) ltac:(vm_compute; discriminate))))).
  split; [reflexivity|]. vm_compute. discriminate.
Defined.

(** X21. [toUInt] fails on a number that needs more than 32 bits and the
    failure is read as 0: an interface id with such a major number is taken
    for major 0, so an application at major 0 gets no major entry for
    it. *)
Theorem oversized_major_read_as_zero {platform : Platform} (major minor : N)
    (md : PluginMetaData) :
  iid md = canonical_iid major minor ->
  (UINT_MAX < major)%N ->
  let m := QRegularExpression_match regex_iid (iid md) in
  captured m 1 = pretty major /\
  toUInt (captured m 1) = 0%N /\
  (ALBERT_VERSION_MAJOR = 0%N -> existsb is_major_error (validate md) = false) /\
  (ALBERT_VERSION_MAJOR <> 0%N ->
   In (error_major 0 ALBERT_VERSION_MAJOR) (validate md)).
Proof.
  intros Hiid Hbig m.
  destruct (iid_match_of_runs (pretty major) (pretty minor)
              (proj1 (pretty_N_digits major)) (proj1 (pretty_N_digits minor)))
    as (Hm & H1 & _).
  fold (canonical_iid major minor) in Hm, H1. rewrite <- Hiid in Hm, H1.
  fold m in Hm, H1.
  assert (E1 : toUInt (captured m 1) = 0%N).
  { rewrite H1, (proj1 (toUInt_pretty major)).
    by replace (major <=? UINT_MAX)%N with false by (symmetry; apply N.leb_gt; lia). }
  split; [exact H1|]. split; [exact E1|].
  pose proof (validate_iid_match md Hm) as Ev. fold m in Ev. rewrite E1 in Ev.
  split.
  - intros E0. rewrite existsb_validate by reflexivity. rewrite Ev, E0. simpl.
    by destruct (_ <? _)%N.
  - intros Hne. rewrite validate_parts. apply in_or_app. left. rewrite Ev.
    replace (0 =? ALBERT_VERSION_MAJOR)%N with false
      by (symmetry; apply N.eqb_neq; congruence).
    simpl. by left.
Qed.

Lemma oversized_major_read_as_zero_witness :
  existsb is_major_error
    (validate (platform := example_platform)
       (example_metadata (canonical_iid 4294967296 7) "calculator" "1.4"
          "Calculator" "Evaluates")) = false.
Proof.
  apply (proj1 (proj2 (proj2 (@oversized_major_read_as_zero example_platform 4294967296 7
           (example_metadata (canonical_iid 4294967296 7) "calculator" "1.4"
              "Calculator" "Evaluates")
           eq_refl ltac:(vm_compute; reflexivity))))).
  reflexivity.
Defined.

(** X22. The interface id pattern is not anchored and its dots stand for
    any code point: it finds a match exactly in the texts that hold,
    anywhere, the word org, one code point, the word albert, one code
    point, the word PluginInterface/ and two non-empty runs of digits with
    one code point between them, none of the three code points being a line
    feed.  What stands before and after is not looked at. *)
Theorem iid_pattern_accepts_iff (s : string) :
  hasMatch (QRegularExpression_match regex_iid s) = true <-> iid_shape s.
Proof.
  unfold QRegularExpression_match, regex_iid, digit. split.
  - destruct (search _ 0 s) as [g|] eqn:E; [intros _|discriminate].
    apply search_inv in E as (pre & s' & cf & -> & H & _).
    rewrite run_Seq in H. apply run_Str_inv in H as (r1 & R1 & H); [|discriminate].
    rewrite run_Seq in H. apply run_Any_inv in H as (x & r2 & R2 & Cx & Hx & H).
    rewrite run_Seq in H. apply run_Str_inv in H as (r3 & R3 & H); [|discriminate].
    rewrite run_Seq in H. apply run_Any_inv in H as (y & r4 & R4 & Cy & Hy & H).
    rewrite run_Seq in H. apply run_Str_inv in H as (r5 & R5 & H); [|discriminate].
    rewrite run_Seq in H. apply run_group_inv in H as (w1 & r6 & N1 & F1 & R6 & H).
    rewrite run_Seq in H. apply run_Any_inv in H as (z & r7 & R7 & Cz & Hz & H).
    apply run_group_inv in H as (w2 & post & N2 & F2 & R8 & _).
    cbn [rest advance after after_group] in *.
    exists pre, x, y, w1, z, w2, post.
    split; [exact Cx|]. split; [exact Hx|]. split; [exact Cy|]. split; [exact Hy|].
    split; [exact Cz|]. split; [exact Hz|].
    split; [by apply digits_run_class|]. split; [by apply digits_run_class|].
    by rewrite R1, R2, R3, R4, R5, R6, R7, R8.
  - intros (pre & x & y & w1 & z & w2 & post & Cx & Hx & Cy & Hy & Cz & Hz & D1 & D2 & ->).
    apply digits_run_class in D1 as [N1 F1]. apply digits_run_class in D2 as [N2 F2].
    match goal with
    | |- hasMatch (search ?r 0 ?t) = true =>
        assert (Hsome : is_Some (search r 0 t)); [|by destruct Hsome as [g ->]]
    end.
    apply search_complete.
    rewrite run_Seq.
    rewrite (run_Str_at "org" _
               (x ++ "albert" ++ y ++ "PluginInterface/" ++ w1 ++ z ++ w2 ++ post))
      by (reflexivity || discriminate).
    rewrite run_Seq.
    rewrite (run_Any_at x _ ("albert" ++ y ++ "PluginInterface/" ++ w1 ++ z ++ w2 ++ post))
      by (reflexivity || assumption).
    rewrite run_Seq.
    rewrite (run_Str_at "albert" _ (y ++ "PluginInterface/" ++ w1 ++ z ++ w2 ++ post))
      by (reflexivity || discriminate).
    rewrite run_Seq.
    rewrite (run_Any_at y _ ("PluginInterface/" ++ w1 ++ z ++ w2 ++ post))
      by (reflexivity || assumption).
    rewrite run_Seq.
    rewrite (run_Str_at "PluginInterface/" _ (w1 ++ z ++ w2 ++ post))
      by (reflexivity || discriminate).
    rewrite run_Seq.
    apply (run_group_complete 1 _ _ _ w1 (z ++ w2 ++ post));
      [reflexivity|exact N1|exact F1|].
    rewrite run_Seq.
    rewrite (run_Any_at z _ (w2 ++ post)) by (reflexivity || assumption).
    apply (run_group_complete 2 _ _ _ w2 post); [reflexivity|exact N2|exact F2|].
    by eexists.
Qed.

(** ** The table follows the engine *)

Lemma in_step_table {QueryEngine : Type} {ops : TriggerWidget.QueryEngineOps QueryEngine}
    (m m' : TriggerWidget.TriggerModel) (o : TableOp QueryEngine) :
  TriggerWidget.update m = m -> table_step m o = Some m' ->
  TriggerWidget.update m' = m'.
Proof.
  intros Hm H. destruct o as [e t|e t|idx value role]; cbn [table_step] in H.
  - by injection H as <-.
  - by injection H as <-.
  - unfold TriggerWidget.setData in H.
    destruct (_ =? _)%Z; [|by simplify_eq].
    destruct (role =? TriggerWidget.EditRole)%Z.
    + destruct (isEmpty _); [by simplify_eq|].
      destruct (TriggerWidget.entry_at _ _); [|discriminate]. by simplify_eq.
    + destruct (role =? TriggerWidget.CheckStateRole)%Z; [|by simplify_eq].
      destruct (TriggerWidget.entry_at _ _); [|discriminate]. by simplify_eq.
Qed.

(** X23. Whatever happens to the table after its construction, in any
    order and number: handlers added or removed, with the engine in
    whatever state it is in when the model is told, edits and check state
    changes that succeed or are turned down; as long as no call ran off the
    end of the table, the rows are those of the engine's configuration, one
    per handler, in ascending order of handler id as [QString] compares
    ids, and the row count is the number of handlers configured. *)
Theorem table_follows_engine {QueryEngine : Type}
    {ops : TriggerWidget.QueryEngineOps QueryEngine}
    (e : QueryEngine) (os : list (TableOp QueryEngine)) (m : TriggerWidget.TriggerModel) :
  table_run (TriggerWidget.TriggerModel_ctor e) os = Some m ->
  TriggerWidget.query_handlers m
    ≡ₚ rows_of (TriggerWidget.handlerConfig (TriggerWidget.engine m)) /\
  StronglySorted id_le (TriggerWidget.query_handlers m) /\
  TriggerWidget.rowCount m
    = Z.of_nat (length (TriggerWidget.handlerConfig (TriggerWidget.engine m))).
Proof.
  intros H.
  assert (Hu : TriggerWidget.update m = m).
  { assert (Hgen : forall os m0, TriggerWidget.update m0 = m0 ->
              table_run m0 os = Some m -> TriggerWidget.update m = m).
    { clear. induction os as [|o os IH]; intros m0 H0 Hr; cbn [table_run] in Hr.
      - by injection Hr as <-.
      - destruct (table_step m0 o) as [m1|] eqn:E; [|discriminate].
        apply (IH m1); [|exact Hr]. by apply (in_step_table m0 m1 o). }
    apply (Hgen os (TriggerWidget.TriggerModel_ctor e)); [reflexivity|exact H]. }
  rewrite <- Hu. unfold TriggerWidget.update. cbn [TriggerWidget.query_handlers
    TriggerWidget.engine TriggerWidget.rowCount].
  split; [apply sort_entries_perm|]. split; [apply sort_entries_sorted|].
  unfold TriggerWidget.rowCount. cbn [TriggerWidget.query_handlers]. f_equal.
  rewrite sort_entries_perm. apply length_map.
Qed.

Lemma table_follows_engine_witness :
  exists m,
    table_run (ops := ExampleEngine.ops)
      (TriggerWidget.TriggerModel_ctor (ops := ExampleEngine.ops) ExampleEngine.engine0)
      [OpAdd ExampleEngine.engine2 ExampleEngine.fixed;
       OpSetData {| TriggerWidget.row := 2; TriggerWidget.column := 1 |}
         (ExampleEngine.text_value "file ") TriggerWidget.EditRole;
       OpSetData {| TriggerWidget.row := 0; TriggerWidget.column := 1 |}
         ExampleEngine.empty_value TriggerWidget.CheckStateRole] = Some m /\
    map (fun e => (TriggerWidget.handler_id (TriggerWidget.handler e),
                   TriggerWidget.entry_trigger e, TriggerWidget.entry_enabled e))
        (TriggerWidget.query_handlers m)
      = [("applications", "app ", false); ("calculator", "= ", false);
         ("files", "file ", true)] /\
    TriggerWidget.rowCount m = 3%Z.
Proof.
  eexists. split; [reflexivity|]. split; [reflexivity|].
  apply (proj2 (proj2 (@table_follows_engine _ ExampleEngine.ops ExampleEngine.engine0
           [OpAdd ExampleEngine.engine2 ExampleEngine.fixed;
            OpSetData {| TriggerWidget.row := 2; TriggerWidget.column := 1 |}
              (ExampleEngine.text_value "file ") TriggerWidget.EditRole;
            OpSetData {| TriggerWidget.row := 0; TriggerWidget.column := 1 |}
              ExampleEngine.empty_value TriggerWidget.CheckStateRole] _ eq_refl))).
Defined.
